(** * Sinogram: a pair-substitution codec between base64 text and CJK characters

    A shallow embedding of [main.go] and a verification of its
    specification.  Go strings and byte slices are lists of bytes, runes
    are integers ([Z], the values of Go's [int32]), the two Go maps of the
    codec are finite maps.  The parts of the Go standard library the program
    calls ([unicode/utf8], the [range] loop over a string and
    [encoding/base64]) are embedded after their Go sources. *)

From Stdlib Require Import ZArith Lia List Strings.Byte Strings.String.
From stdpp Require Import base decidable countable gmap list.
Import ListNotations.

Local Open Scope Z_scope.

(** ** Bytes *)

#[global] Instance byte_eq_dec : EqDecision byte := Byte.byte_eq_dec.

#[global] Program Instance byte_countable : Countable byte :=
  inj_countable Byte.to_N Byte.of_N _.
Next Obligation. exact Byte.of_to_N. Qed.

(** [int(b)], [rune(b)], [uint(b)]: the value of a byte. *)
Definition byte_to_Z (b : byte) : Z := Z.of_N (Byte.to_N b).

(** [byte(z)]: the conversion to a byte keeps the low eight bits. *)
Definition byte_of_Z (z : Z) : byte :=
  default Byte.x00 (Byte.of_N (Z.to_N (z mod 256))).

(** A Go string literal, as its bytes. *)
Definition bytes (s : string) : list byte := list_byte_of_string s.

(** ** [unicode/utf8] *)

Module utf8.

Definition RuneError : Z := 0xFFFD.
Definition MaxRune : Z := 0x10FFFF.

Definition surrogateMin : Z := 0xD800.
Definition surrogateMax : Z := 0xDFFF.

Definition tx : Z := 0x80.
Definition t2 : Z := 0xC0.
Definition t3 : Z := 0xE0.
Definition t4 : Z := 0xF0.

Definition maskx : Z := 0x3F.
Definition mask2 : Z := 0x1F.
Definition mask3 : Z := 0x0F.
Definition mask4 : Z := 0x07.

Definition rune1Max : Z := 0x7F.
Definition rune2Max : Z := 0x7FF.
Definition rune3Max : Z := 0xFFFF.

Definition locb : Z := 0x80.
Definition hicb : Z := 0xBF.

(** [uint32(r)] of an [int32]. *)
Definition uint32 (r : Z) : Z := r mod 2 ^ 32.

(** The value of [byte(z)]. *)
Definition u8 (z : Z) : Z := z mod 256.

(** [appendRuneNonASCII]: the [switch] on [i := uint32(r)], with the
    fall-through from the invalid case into the three-byte case. *)
Definition appendRuneNonASCII (p : list byte) (r : Z) : list byte :=
  let i := uint32 r in
  let three (r : Z) :=
    p ++ [ byte_of_Z (Z.lor t3 (u8 (r ≫ 12)));
           byte_of_Z (Z.lor tx (Z.land (u8 (r ≫ 6)) maskx));
           byte_of_Z (Z.lor tx (Z.land (u8 r) maskx)) ] in
  if i <=? rune2Max then
    p ++ [ byte_of_Z (Z.lor t2 (u8 (r ≫ 6)));
           byte_of_Z (Z.lor tx (Z.land (u8 r) maskx)) ]
  else if (MaxRune <? i) || ((surrogateMin <=? i) && (i <=? surrogateMax)) then
    three RuneError
  else if i <=? rune3Max then
    three r
  else
    p ++ [ byte_of_Z (Z.lor t4 (u8 (r ≫ 18)));
           byte_of_Z (Z.lor tx (Z.land (u8 (r ≫ 12)) maskx));
           byte_of_Z (Z.lor tx (Z.land (u8 (r ≫ 6)) maskx));
           byte_of_Z (Z.lor tx (Z.land (u8 r) maskx)) ].

(** [AppendRune]: the UTF-8 encoding of [r] appended to [p]. *)
Definition AppendRune (p : list byte) (r : Z) : list byte :=
  if uint32 r <=? rune1Max then p ++ [byte_of_Z r]
  else appendRuneNonASCII p r.

(** The entries of the table [first]: [as] for ASCII, [xx] for an invalid
    first byte, and otherwise the size in the low bits and the index of
    the accept range in the high bits. *)
Definition xx : Z := 0xF1.
Definition as_ : Z := 0xF0.
Definition s1 : Z := 0x02.
Definition s2 : Z := 0x13.
Definition s3 : Z := 0x03.
Definition s4 : Z := 0x23.
Definition s5 : Z := 0x34.
Definition s6 : Z := 0x04.
Definition s7 : Z := 0x44.

Definition first (b : Z) : Z :=
  if b <? 0x80 then as_
  else if b <? 0xC2 then xx
  else if b <? 0xE0 then s1
  else if b =? 0xE0 then s2
  else if b <? 0xED then s3
  else if b =? 0xED then s4
  else if b <? 0xF0 then s3
  else if b =? 0xF0 then s5
  else if b <? 0xF4 then s6
  else if b =? 0xF4 then s7
  else xx.

(** [acceptRanges]: the bounds on the second byte. *)
Definition acceptRanges (k : Z) : Z * Z :=
  if k =? 0 then (locb, hicb)
  else if k =? 1 then (0xA0, hicb)
  else if k =? 2 then (locb, 0x9F)
  else if k =? 3 then (0x90, hicb)
  else if k =? 4 then (locb, 0x8F)
  else (0, 0).

(** [DecodeRuneInString]: the first rune of [s] and its width in bytes;
    [(RuneError, 1)] for an invalid encoding, [(RuneError, 0)] for the
    empty string. *)
Definition DecodeRuneInString (s : list byte) : Z * nat :=
  match s with
  | [] => (RuneError, 0%nat)
  | c0 :: s' =>
    let b0 := byte_to_Z c0 in
    let x := first b0 in
    if as_ <=? x then
      ((if x =? xx then RuneError else b0), 1%nat)
    else
      let sz := Z.land x 7 in
      let accept := acceptRanges (x ≫ 4) in
      match s' with
      | [] => (RuneError, 1%nat)
      | c1 :: s'' =>
        let b1 := byte_to_Z c1 in
        if (b1 <? fst accept) || (snd accept <? b1) then (RuneError, 1%nat)
        else if sz <=? 2 then
          (Z.lor (Z.land b0 mask2 ≪ 6) (Z.land b1 maskx), 2%nat)
        else
          match s'' with
          | [] => (RuneError, 1%nat)
          | c2 :: s''' =>
            let b2 := byte_to_Z c2 in
            if (b2 <? locb) || (hicb <? b2) then (RuneError, 1%nat)
            else if sz <=? 3 then
              (Z.lor (Z.lor (Z.land b0 mask3 ≪ 12) (Z.land b1 maskx ≪ 6))
                     (Z.land b2 maskx), 3%nat)
            else
              match s''' with
              | [] => (RuneError, 1%nat)
              | c3 :: _ =>
                let b3 := byte_to_Z c3 in
                if (b3 <? locb) || (hicb <? b3) then (RuneError, 1%nat)
                else
                  (Z.lor (Z.lor (Z.lor (Z.land b0 mask4 ≪ 18)
                                       (Z.land b1 maskx ≪ 12))
                                (Z.land b2 maskx ≪ 6))
                         (Z.land b3 maskx), 4%nat)
              end
          end
      end
  end.

(** A Unicode scalar value: what [ValidRune] accepts. *)
Definition ValidRune (r : Z) : bool :=
  ((0 <=? r) && (r <? surrogateMin)) || ((surrogateMax <? r) && (r <=? MaxRune)).

End utf8.

(** [for _, r := range s]: the runes of a string, in order.  Each step
    decodes one rune at the current position and advances by its width;
    [skip] counts the bytes of the current rune still to pass over. *)
Fixpoint rangeFrom (skip : nat) (s : list byte) : list Z :=
  match s with
  | [] => []
  | _ :: tl =>
    match skip with
    | S k => rangeFrom k tl
    | O => let '(r, size) := utf8.DecodeRuneInString s in
           r :: rangeFrom (size - 1) tl
    end
  end.

Definition runes (s : list byte) : list Z := rangeFrom 0 s.

(** [strings.Builder.WriteRune], on the bytes written so far. *)
Definition WriteRune (sb : list byte) (r : Z) : list byte := utf8.AppendRune sb r.

(** [string(r)] for one rune: its UTF-8 encoding. *)
Definition EncodeRune (r : Z) : list byte := utf8.AppendRune [] r.

(** ** Results of fallible operations *)

Inductive result (E A : Type) : Type :=
| Ok (a : A)
| Err (e : E).
Arguments Ok {E A} a.
Arguments Err {E A} e.

(** [strings.IndexByte]: the index of the first [c] in [s], or -1. *)
Fixpoint IndexByte (s : list byte) (c : byte) : Z :=
  match s with
  | [] => -1
  | b :: tl =>
    if decide (b = c) then 0
    else let i := IndexByte tl c in if i =? -1 then -1 else 1 + i
  end.

(** ** [encoding/base64], the encoding [StdEncoding] *)

Module base64.

Definition encodeStd : list byte :=
  bytes "ABCDEFGHIJKLMNOPQRSTUVWXYZabcdefghijklmnopqrstuvwxyz0123456789+/".

Definition StdPadding : byte := "="%byte.

(** [enc.encode[v]] *)
Definition encode (v : Z) : byte := nth (Z.to_nat v) encodeStd "000"%byte.

(** [enc.decodeMap[c]]: the table is filled with [0xFF] and then
    [decodeMap[encoder[i]] = i] for every [i]. *)
Definition decodeMap (c : byte) : Z :=
  let i := IndexByte encodeStd c in if i =? -1 then 0xFF else i.

(** [Encode] / [EncodeToString]: the loop over whole groups of three
    bytes, then the remainder of one or two bytes with its padding. *)
Fixpoint EncodeToString (src : list byte) : list byte :=
  match src with
  | [] => []
  | [a] =>
    let val := byte_to_Z a ≪ 16 in
    [ encode (Z.land (val ≫ 18) 0x3F); encode (Z.land (val ≫ 12) 0x3F);
      StdPadding; StdPadding ]
  | [a; b] =>
    let val := Z.lor (byte_to_Z a ≪ 16) (byte_to_Z b ≪ 8) in
    [ encode (Z.land (val ≫ 18) 0x3F); encode (Z.land (val ≫ 12) 0x3F);
      encode (Z.land (val ≫ 6) 0x3F); StdPadding ]
  | a :: b :: c :: rest =>
    let val := Z.lor (Z.lor (byte_to_Z a ≪ 16) (byte_to_Z b ≪ 8)) (byte_to_Z c) in
    [ encode (Z.land (val ≫ 18) 0x3F); encode (Z.land (val ≫ 12) 0x3F);
      encode (Z.land (val ≫ 6) 0x3F); encode (Z.land val 0x3F) ]
    ++ EncodeToString rest
  end.

Inductive CorruptInputError : Type := CorruptInput.

Definition isNewline (c : byte) : bool :=
  bool_decide (c = "010"%byte) || bool_decide (c = "013"%byte).

(** [for si < len(src) && (src[si] == '\n' || src[si] == '\r') { si++ }] *)
Fixpoint skipNewlines (src : list byte) : list byte :=
  match src with
  | c :: tl => if isNewline c then skipNewlines tl else src
  | [] => []
  end.

(** The end of [decodeQuantum]: the digits of [dbuf] (missing ones are 0)
    are packed into 24 bits and the first [dlen - 1] bytes are stored. *)
Definition quantum (dbuf : list Z) (dlen : nat) : list byte :=
  let d k := nth k dbuf 0 in
  let val := Z.lor (Z.lor (Z.lor (d 0%nat ≪ 18) (d 1%nat ≪ 12)) (d 2%nat ≪ 6)) (d 3%nat) in
  take (dlen - 1) [ byte_of_Z (val ≫ 16); byte_of_Z (val ≫ 8); byte_of_Z val ].

(** [Decode]: quantum after quantum, one input byte at a time.  [dbuf]
    holds the digits of the current quantum ([j = length dbuf]), [dst] the
    bytes decoded so far.  Newlines are skipped; padding is accepted only
    after two or three digits, must be complete, and may only be followed
    by newlines. *)
Fixpoint decodeFrom (src : list byte) (dbuf : list Z) (dst : list byte)
  : result CorruptInputError (list byte) :=
  match src with
  | [] =>
    match dbuf with
    | [] => Ok dst
    | _ => Err CorruptInput
    end
  | c :: src' =>
    let out := decodeMap c in
    if negb (out =? 0xFF) then
      let dbuf' := dbuf ++ [out] in
      if (length dbuf' =? 4)%nat then decodeFrom src' [] (dst ++ quantum dbuf' 4)
      else decodeFrom src' dbuf' dst
    else if isNewline c then decodeFrom src' dbuf dst
    else if negb (bool_decide (c = StdPadding)) then Err CorruptInput
    else
      match length dbuf with
      | 0%nat | 1%nat => Err CorruptInput
      | 2%nat =>
        match skipNewlines src' with
        | [] => Err CorruptInput
        | c' :: src'' =>
          if negb (bool_decide (c' = StdPadding)) then Err CorruptInput
          else
            match skipNewlines src'' with
            | [] => Ok (dst ++ quantum dbuf 2)
            | _ :: _ => Err CorruptInput
            end
        end
      | _ =>
        match skipNewlines src' with
        | [] => Ok (dst ++ quantum dbuf 3)
        | _ :: _ => Err CorruptInput
        end
      end
  end.

Definition DecodeString (s : list byte) : result CorruptInputError (list byte) :=
  decodeFrom s [] [].

End base64.

(** ** The codec of [main.go] *)

Definition base64Charset : list byte :=
  bytes "ABCDEFGHIJKLMNOPQRSTUVWXYZabcdefghijklmnopqrstuvwxyz0123456789+/".
Definition minDictChars : nat := 256.
Definition maxPairs : nat := 4096.

(** [Codec]: the two maps, from a two-byte string to a rune and back. *)
Record Codec : Type := mkCodec {
  pairToRune : gmap (list byte) Z;
  runeToPair : gmap Z (list byte)
}.

Definition NewCodec : Codec := {| pairToRune := ∅; runeToPair := ∅ |}.

(** The failures of the program: an unreadable file, the [fmt.Errorf] of
    [LoadDictionary] with its two counts, and the wrapped error of
    [base64.StdEncoding.DecodeString]. *)
Inductive error : Type :=
| ReadError
| InsufficientDictionary (found need : nat)
| DecodeError (e : base64.CorruptInputError).

(** [isChineseChar] *)
Definition isChineseChar (r : Z) : bool :=
  ((0x4E00 <=? r) && (r <=? 0x9FFF)) ||
  ((0x3400 <=? r) && (r <=? 0x4DBF)) ||
  ((0x20000 <=? r) && (r <=? 0x2A6DF)).

(** [seen[r]] on a [map[rune]bool]: [false] for a missing key. *)
Definition seenAt (seen : gmap Z bool) (r : Z) : bool := default false (seen !! r).

(** The body of the loop of [extractChineseCharacters], on the pair of the
    map [seen] and the slice [chars]. *)
Definition extractStep (st : gmap Z bool * list Z) (r : Z) : gmap Z bool * list Z :=
  let '(seen, chars) := st in
  if negb (seenAt seen r) && isChineseChar r then (<[r := true]> seen, chars ++ [r])
  else (seen, chars).

(** [extractChineseCharacters] *)
Definition extractChineseCharacters (text : list byte) : list Z :=
  snd (fold_left extractStep (runes text) (∅, [])).

(** [base64Charset[i]]; every use is guarded by [i < 64]. *)
Definition charsetAt (i : nat) : byte := nth i base64Charset "000"%byte.

(** The inner loop of [buildMapping],
    [for j := 0; j < 64 && idx < len(chars); j++], with [n] the number of
    values of [j] still to visit; the state is [idx] and the codec. *)
Fixpoint buildRow (n : nat) (i j : nat) (chars : list Z) (idx : nat) (c : Codec)
  : nat * Codec :=
  match n with
  | O => (idx, c)
  | S n' =>
    match chars !! idx with
    | None => (idx, c)
    | Some char =>
      let pair := [charsetAt i; charsetAt j] in
      buildRow n' i (S j) chars (S idx)
        {| pairToRune := <[pair := char]> (pairToRune c);
           runeToPair := <[char := pair]> (runeToPair c) |}
    end
  end.

(** The outer loop, [for i := 0; i < 64 && idx < len(chars); i++]. *)
Fixpoint buildRows (n : nat) (i : nat) (chars : list Z) (idx : nat) (c : Codec)
  : nat * Codec :=
  match n with
  | O => (idx, c)
  | S n' =>
    if bool_decide (idx < length chars)%nat then
      let '(idx', c') := buildRow 64 i 0 chars idx c in
      buildRows n' (S i) chars idx' c'
    else (idx, c)
  end.

(** [buildMapping] *)
Definition buildMapping (c : Codec) (chars : list Z) : Codec :=
  snd (buildRows 64 0 chars 0 c).

(** [LoadDictionary], on the result of reading the file. *)
Definition LoadDictionary (c : Codec) (file : option (list byte)) : result error Codec :=
  match file with
  | None => Err ReadError
  | Some content =>
    let uniqueChars := extractChineseCharacters content in
    if bool_decide (length uniqueChars < minDictChars)%nat then
      Err (InsufficientDictionary (length uniqueChars) minDictChars)
    else Ok (buildMapping c uniqueChars)
  end.

(** [isValidBase64Pair] *)
Definition isValidBase64Pair (pair : list byte) : bool :=
  match pair with
  | [p0; p1] =>
    negb (IndexByte base64Charset p0 =? -1) && negb (IndexByte base64Charset p1 =? -1)
  | _ => false
  end.

(** The intermediate text of [encodeData]: the base64 text of the data, or
    the data itself. *)
Definition intermediate (data : list byte) (useBase64 : bool) : list byte :=
  if useBase64 then base64.EncodeToString data else data.

(** [if len(text)%2 != 0 { text += "=" }] *)
Definition padEven (text : list byte) : list byte :=
  if negb (length text mod 2 =? 0)%nat then text ++ bytes "=" else text.

(** The loop of [encodeData], [for i := 0; i < len(text)-1; i += 2], on the
    text from position [i] on; the state is the builder [result] and the
    counter [unmapped]. *)
Fixpoint encodeLoop (c : Codec) (text : list byte) (result : list byte) (unmapped : nat)
  : list byte * nat :=
  match text with
  | a :: b :: rest =>
    let pair := [a; b] in
    if isValidBase64Pair pair then
      match pairToRune c !! pair with
      | Some char => encodeLoop c rest (WriteRune result char) unmapped
      | None => encodeLoop c rest (result ++ pair) (S unmapped)
      end
    else encodeLoop c rest (result ++ pair) unmapped
  | _ => (result, unmapped)
  end.

(** [encodeData], with the counter that the warning prints. *)
Definition encodeDataCount (c : Codec) (data : list byte) (useBase64 : bool)
  : list byte * nat :=
  encodeLoop c (padEven (intermediate data useBase64)) [] 0.

Definition encodeData (c : Codec) (data : list byte) (useBase64 : bool) : list byte :=
  fst (encodeDataCount c data useBase64).

(** The body of the loop of [decodeData], on the builder [base64Text]. *)
Definition decodeStep (c : Codec) (base64Text : list byte) (r : Z) : list byte :=
  match runeToPair c !! r with
  | Some pr => base64Text ++ pr
  | None => WriteRune base64Text r
  end.

(** The text that [decodeData] rebuilds before it decodes base64. *)
Definition reconstruct (c : Codec) (text : list byte) : list byte :=
  fold_left (decodeStep c) (runes text) [].

(** [decodeData] *)
Definition decodeData (c : Codec) (text : list byte) (useBase64 : bool)
  : result base64.CorruptInputError (list byte) :=
  let base64Str := reconstruct c text in
  if useBase64 then base64.DecodeString base64Str
  else Ok base64Str.

(** [Decode], on the result of reading the input file; the bytes returned
    are those written to the output file. *)
Definition Decode (c : Codec) (file : option (list byte)) (useBase64 : bool)
  : result error (list byte) :=
  match file with
  | None => Err ReadError
  | Some data =>
    match decodeData c data useBase64 with
    | Err e => Err (DecodeError e)
    | Ok decoded => Ok decoded
    end
  end.

(** ** Notions used in the statements *)

(** A character of a base64 text: a digit of the alphabet or the padding
    character. *)
Definition base64Char (c : byte) : Prop :=
  IndexByte base64Charset c <> -1 \/ c = base64.StdPadding.

(** The characters [chars] stand in the order of their first occurrences
    in [done]: of two of them, the first occurrence of the earlier one
    precedes every occurrence of the later one. *)
Definition firstOccurrenceOrder (done chars : list Z) : Prop :=
  forall (i j : nat) (x y : Z),
    (i < j)%nat -> chars !! i = Some x -> chars !! j = Some y ->
    exists pre post, done = pre ++ x :: post /\ (x ∉ pre) /\ (y ∉ pre).

(** What the loop of [extractChineseCharacters] maintains, with [done] the
    runes already visited: [seen] holds exactly the collected runes, no rune
    is collected twice, the collected runes are the qualifying runes
    visited, and they stand in the order of their first occurrences. *)
Definition extractInv (done : list Z) (st : gmap Z bool * list Z) : Prop :=
  (forall r, seenAt (fst st) r = true <-> r ∈ snd st) /\
  NoDup (snd st) /\
  (forall r, r ∈ snd st <-> r ∈ done /\ isChineseChar r = true) /\
  firstOccurrenceOrder done (snd st).

(** The [k]-th pair in row-major order:
    [(alphabet[k div 64], alphabet[k mod 64])]. *)
Definition pairAt (k : nat) : list byte :=
  [charsetAt (k / 64); charsetAt (k mod 64)].

(** The two assignments of the loop body of [buildMapping]. *)
Definition assign (pair : list byte) (char : Z) (c : Codec) : Codec :=
  {| pairToRune := <[pair := char]> (pairToRune c);
     runeToPair := <[char := pair]> (runeToPair c) |}.

(** The characters [cs] assigned in order to the pairs from the [k]-th on:
    the two nested loops, flattened. *)
Fixpoint assignFrom (k : nat) (cs : list Z) (c : Codec) : Codec :=
  match cs with
  | [] => c
  | char :: cs' => assignFrom (S k) cs' (assign (pairAt k) char c)
  end.

(** The pair [p] and the character [r] stand at the same position, [r] in
    [cs] and [p] in the row-major order of the pairs. *)
Definition assigned (cs : list Z) (p : list byte) (r : Z) : Prop :=
  exists k : nat, cs !! k = Some r /\ p = pairAt k.

(** The consecutive two-byte segments of a text, left to right. *)
Fixpoint segments (text : list byte) : list (byte * byte) :=
  match text with
  | a :: b :: rest => (a, b) :: segments rest
  | _ => []
  end.

(** What one iteration of the loop of [encodeData] writes for a segment,
    and whether it counts the segment as unmapped. *)
Definition encodeSegment (c : Codec) (seg : byte * byte) : list byte * bool :=
  let pair := [fst seg; snd seg] in
  if isValidBase64Pair pair then
    match pairToRune c !! pair with
    | Some char => (EncodeRune char, false)
    | None => (pair, true)
    end
  else (pair, false).


(** What one iteration of the loop of [decodeData] writes for a rune. *)
Definition decodePiece (c : Codec) (r : Z) : list byte :=
  match runeToPair c !! r with
  | Some pr => pr
  | None => EncodeRune r
  end.

(** A codec whose reverse map inverts its forward map and whose mapped
    characters are dictionary characters. *)
Definition codec_wf (c : Codec) : Prop :=
  (forall p r, pairToRune c !! p = Some r -> runeToPair c !! r = Some p) /\
  (forall r p, runeToPair c !! r = Some p -> isChineseChar r = true).

(** A rune that the decode loop writes back as it is, and a text made of
    the encodings of such runes. *)
Definition plainRune (c : Codec) (r : Z) : Prop :=
  utf8.ValidRune r = true /\ runeToPair c !! r = None.

Definition plain (c : Codec) (s : list byte) : Prop :=
  exists rs, s = flat_map EncodeRune rs /\ Forall (plainRune c) rs.

(** The raw data that comes back unchanged: an even number of bytes that
    are the UTF-8 encoding of their own runes (valid UTF-8), none of the
    runes a key of the reverse map. *)
Definition rawRoundTrips (c : Codec) (data : list byte) : Prop :=
  Nat.even (length data) = true /\
  flat_map EncodeRune (runes data) = data /\
  Forall (fun r => runeToPair c !! r = None) (runes data).

(** A dictionary text for examples: the [n] consecutive characters from
    U+4E00 on, in UTF-8, and the codec built from 256 of them. *)
Definition sampleChars (n : nat) : list Z :=
  map (fun k => 0x4E00 + Z.of_nat k) (seq 0 n).

Definition sampleDictionary (n : nat) : list byte :=
  flat_map EncodeRune (sampleChars n).

Definition sampleCodec : Codec :=
  buildMapping NewCodec (extractChineseCharacters (sampleDictionary 256)).

(** The code points of a text, read from left to right, in the words of
    the UTF-8 standard: where the encoding of a scalar value starts, that
    value is read and its bytes are passed; a byte at which no encoding of
    a scalar value starts is read, alone, as U+FFFD. *)
Inductive codePoints : list byte -> list Z -> Prop :=
| codePoints_nil : codePoints [] []
| codePoints_rune (r : Z) (rest : list byte) (rs : list Z) :
    utf8.ValidRune r = true ->
    codePoints rest rs ->
    codePoints (EncodeRune r ++ rest) (r :: rs)
| codePoints_invalid (b : byte) (rest : list byte) (rs : list Z) :
    (forall r tl, utf8.ValidRune r = true -> b :: rest <> EncodeRune r ++ tl) ->
    codePoints rest rs ->
    codePoints (b :: rest) (utf8.RuneError :: rs).

(** A character of the base64 alphabet. *)
Definition alphabetChar (c : byte) : bool := bool_decide (c ∈ base64Charset).

(** Standard base64 text (RFC 4648, section 4): groups of four characters
    of the alphabet, of which the last may end in one or two padding
    characters.  The bits of the last group that encode no byte are not
    looked at (section 3.5 leaves their check to the decoder). *)
Fixpoint validBase64 (s : list byte) : bool :=
  match s with
  | [] => true
  | [a; b; c; d] =>
    alphabetChar a && alphabetChar b &&
    ((alphabetChar c && (alphabetChar d || bool_decide (d = "="%byte)))
     || (bool_decide (c = "="%byte) && bool_decide (d = "="%byte)))
  | a :: b :: c :: d :: rest =>
    alphabetChar a && alphabetChar b && alphabetChar c && alphabetChar d
    && validBase64 rest
  | _ => false
  end.

(** A text without its line feeds and carriage returns. *)
Definition withoutNewlines (s : list byte) : list byte :=
  List.filter
    (fun c => negb (bool_decide (c = "010"%byte) || bool_decide (c = "013"%byte))) s.

(** Whether an operation has returned a value. *)
Definition succeeds {E A} (r : result E A) : bool :=
  match r with Ok _ => true | Err _ => false end.

(** ** Notions used in the further properties *)

(** The runes that the encoder writes for a segment: the mapped character,
    or the two bytes of the segment. *)
Definition segmentRunes (c : Codec) (seg : byte * byte) : list Z :=
  let pair := [fst seg; snd seg] in
  if isValidBase64Pair pair then
    match pairToRune c !! pair with
    | Some char => [char]
    | None => map byte_to_Z pair
    end
  else map byte_to_Z pair.

(** A rune that the standard decoder reads or passes over: a character of
    the alphabet, the padding character, a line feed or a carriage
    return. *)
Definition base64Rune (r : Z) : bool :=
  existsb (fun b => r =? byte_to_Z b)
    (base64Charset ++ [base64.StdPadding; "010"%byte; "013"%byte]).

(** ** Files, output and the command line *)

Module cli.

(** [os.ReadFile] and [os.WriteFile]: a file system is any state on which
    a read gives the contents of a file or fails, and a write gives the
    state after it and whether it succeeded. *)
Class FileSystem (FS : Type) : Type := {
  ReadFile : FS -> string -> option (list byte);
  WriteFile : FS -> string -> list byte -> FS * bool
}.

(** The errors of the program, by the text that [fmt.Errorf] wraps them
    in; [generateSampleDictionary] returns the error of [os.WriteFile]
    unwrapped. *)
Inductive failure : Type :=
| FailedToReadDictionary
| InsufficientCharacters (found need : nat)
| FailedToReadInput
| FailedToWriteOutput
| DecodeFailed (e : base64.CorruptInputError)
| WriteFileFailed.

(** The lines the program prints, by their format string and the values
    formatted; the lines of [main] that report an error and the usage go to
    the standard error.  The percentage of [printStats] is
    [float64(coverage)/maxPairs*100] of the two numbers of [Coverage]. *)
Inductive line : Type :=
| DictionaryLoaded (totalChars : nat)
| Coverage (coverage total : nat)
| Warning (unmapped : nat)
| OriginalSize (inputSize : nat)
| Base64Size (b64Size : nat)
| EncodedSize (outputSize : nat)
| EncodingComplete
| DecodingComplete (written : nat)
| SampleGenerated (name : string)
| ErrorLine (e : failure)
| EncodingError (e : failure)
| DecodingError (e : failure)
| Usage.

(** The state of a run: the files and the lines printed so far. *)
Record world (FS : Type) : Type := mkWorld {
  files : FS;
  output : list line
}.
Arguments mkWorld {FS} files output.
Arguments files {FS} w.
Arguments output {FS} w.

(** The flags of [main], after [flag.Parse]. *)
Record flags : Type := mkFlags {
  encodeFile : string;
  decodeFile : string;
  dictFile : string;
  outputFile : string;
  useBase64 : bool;
  genDict : bool
}.

Definition defaultDictFile : string := "dictionary.md".

(** The text of [generateSampleDictionary]. *)
Definition sample : list byte :=
  bytes "第一回甄士隱夢幻識通靈賈雨村風塵懷閨秀作者自云因曾歷過番之後故將真事去而借說撰此石頭記書也曰但中所何又是哉今碌無成忽念及當日有女子細推了覺其行止見皆出於我上堂鬚眉不若彼裙釵實愧則餘悔益大可奈時欲已往賴天恩下承祖德錦衣紈絝飫甘饜美肥背父母教育負師兄規訓至半生潦倒罪編述以告普人固能免然閣本萬肖護短併使泯滅雖茆椽蓬牖瓦灶繩床晨月夕階柳庭花亦未傷襟筆墨學文爲用假語言敷演段來悅耳目乃題綱正義開卷即知意原友情並非怨世駡矣涉態得叙旨閱切詩浮着甚苦奔忙盛席華筵終散場悲喜千般同渺古盡荒唐謾紅袖啼痕重更痴抱恨長字看血十年辛尋常列位官你道從起根由近諳深趣味待在注明方聞惑媧氏煉補山稽崖高經二丈四頑三六五百零塊皇只單剩便棄青埂峰誰煅性眾俱獨己材堪入選遂嗟夜號慚悼俄僧遠骨骼凡豐神迥异笑坐邊談快論先些雲霧海僊玄到榮富貴聽打動心想要間享這粗蠢口吐向那弟物禮適耀繁慕質卻稍況仙形體定品必濟利如蒙發點慈攜帶溫柔鄉裡受幾永佩洪劫忘畢齊憨善樂依恃足好多魔八個緊相連屬瞬息极換究竟境歸空的熾進話复求再強制歎靜極思數既們莫并奇處踮腳罷施佛法助還案否感謝咒符展術登變鮮瑩洁玉且縮扇墜小拿托掌体寶沒須鐫妙昌隆邦簪纓族地安身業禁問件携望乞示白飄投舍訪跡分就茫離合歡炎涼面首偈與蒼枉許係前倩寄傳落胎親陳家瑣閒詞全備或适解悶朝代紀輿國反失考据寫賢忠理廷治俗政樣才微班姑蔡縱抄恐愛呢答太耶漢等添綴難野史蹈轍套新別致取拘市井少特訕謗君貶妻奸淫凶惡胜种穢污臭屠毒坏佳部共濫滿紙潘建西兩艷賦擬男名姓旁撥亂劇丑鬟婢乎逐悉矛盾睹敢似委消愁破歪熟噴飯供酒興衰際遇追蹤躡加穿鑿徒為貧食累怀貪戀色貨工夫願稱檢讀他醉飽臥避把玩豈省壽命筋力比謀虛妄舌害腿令眼胡牽扯淑娘舊稿忖晌遍指責佞誅邪罵仁臣良孝倫關功頌眷窮錄邀約私訂偷盟毫干尾悟易改吳樓東魯孔梅溪鑒曹雪芹軒披載增刪次纂章金陵絕酸淚都脂硯齋甲戌評仍按陷南隅蘇城閶門最流外里街內清巷廟窄狹呼葫蘆住宦費嫡封稟恬淡每觀修竹酌吟膝兒乳喚英蓮歲夏晝房手倦拋伏几憩朦朧睡辨廂放現公該結冤尚趁機會夾孽造罕河岸畔絳珠草株赤瑕宮瑛侍露灌溉始久延精滋養脫木僅游饑蜜果膳渴飲水湯酬報郁纏綿恰偶乘平緣警挂償惠勾陪碎膩概篇總香竊暗泄鬼愚度吾交割楚完猶集隨系請濁洞洗諦沉預跳火坑遞接奪牌坊幅對聯跟舉步聲霹靂崩叫睛烈芭蕉冉奶走越粉妝琢乖伸鬥耍熱鬧癩跣跛瘋癲揮霍哭主運爹睬耐煩撤句慣嬌菱澌防節元宵煙豫各幹營北邙銷影試晚隔壁居儒化表飛州仕末宗基喪京整淹蹇暫賣老倚佇引聊送童獻茶嚴爺拜慌恕誑駕略讓客候妨廳翻弄籍窗嗽丫擷儀容姿呆猛抬敝巾服窘腰圓厚闊兼劍星直鼻權腮轉雄壯襤褸什麼幫周疑怪困狂巨留早秋宴另具顧刻值占律卜頻斂額儔蟾光逢搔匵价奩淺誕謂團尊旅寂寥納辭拂院臾設杯盤肴款斟漫漸濃觥限斝簫管戶弦歌輪彩凝輝愈豪乾七寓晴欄捧仰騰兆履霓賀斗充沽囊路措突宜速春闈戰置謬銀冬九黃期買舟晤收介吃竿醒昨荐謁和鼓達黑陰倏霄啟社燈檻急逃婦妥找音響旦死病孺构疾醫療炸油鍋逸燒篱抵條焰軍民救勢熄怜片礫惟跌商議田庄偏旱鼠盜蜂搶狗兵剿捕折岳肅貫務農殷婿狼狽幸薄計哄賺朽屋稼穡勉支持活懶驚唬忿痛積暮攻景巧拄拐杖掙挫麻屣鶉曉冢堆聚閉孫順迎算宿慧徹陋室笏枯楊舞蛛絲雕梁綠紗糊鬢霜土隴帳底鴛鴦箱丐嘆保擇膏粱嫌帽鎖枷扛憐襖寒紫蟒唱認嫁裳拍肩褡褳烘信遣討靠僕針線喝任牢轎烏猩袍府怔象丟歇嚷差瞪禍".

(** [base64.StdEncoding.EncodedLen] *)
Definition EncodedLen (n : nat) : nat := ((n + 2) / 3 * 4)%nat.

Section Program.

Context {FS : Type} `{FileSystem FS}.

(** A computation of the program: from a state to a value and a state. *)
Definition IO (A : Type) : Type := world FS -> A * world FS.

#[local] Instance IO_ret : MRet IO := fun A a w => (a, w).

#[local] Instance IO_bind : MBind IO :=
  fun A B f m w => let '(a, w') := m w in f a w'.

Definition print (l : line) : IO unit :=
  fun w => (tt, mkWorld (files w) (output w ++ [l])).

Definition readFile (name : string) : IO (option (list byte)) :=
  fun w => (ReadFile (files w) name, w).

(** [os.WriteFile], returning whether it succeeded. *)
Definition writeFile (name : string) (data : list byte) : IO bool :=
  fun w =>
    let '(fs', ok) := WriteFile (files w) name data in
    (ok, mkWorld fs' (output w)).

(** [printStats] *)
Definition printStats (c : Codec) (totalChars : nat) : IO unit :=
  let coverage := size (pairToRune c) in
  print (DictionaryLoaded totalChars) ;;
  print (Coverage coverage maxPairs).

(** [LoadDictionary], with the file read and the statistics printed. *)
Definition LoadDictionary (c : Codec) (filename : string) : IO (result failure Codec) :=
  content ← readFile filename;
  match content with
  | None => mret (Err FailedToReadDictionary)
  | Some content =>
    let uniqueChars := extractChineseCharacters content in
    if bool_decide (length uniqueChars < minDictChars)%nat then
      mret (Err (InsufficientCharacters (length uniqueChars) minDictChars))
    else
      let c' := buildMapping c uniqueChars in
      printStats c' (length uniqueChars) ;;
      mret (Ok c')
  end.

(** [encodeData], with its warning printed. *)
Definition encodeData (c : Codec) (data : list byte) (useBase64 : bool) : IO (list byte) :=
  let '(result, unmapped) := encodeDataCount c data useBase64 in
  (if (0 <? unmapped)%nat then print (Warning unmapped) else mret tt) ;;
  mret result.

(** [printEncodeStats] *)
Definition printEncodeStats (inputSize outputSize : nat) (useBase64 : bool) : IO unit :=
  print (OriginalSize inputSize) ;;
  (if useBase64 then print (Base64Size (EncodedLen inputSize)) else mret tt) ;;
  print (EncodedSize outputSize) ;;
  print EncodingComplete.

(** [Encode] *)
Definition Encode (c : Codec) (inputPath outputPath : string) (useBase64 : bool)
  : IO (result failure unit) :=
  data ← readFile inputPath;
  match data with
  | None => mret (Err FailedToReadInput)
  | Some data =>
    encoded ← encodeData c data useBase64;
    written ← writeFile outputPath encoded;
    if written : bool then
      printEncodeStats (length data) (length encoded) useBase64 ;;
      mret (Ok tt)
    else mret (Err FailedToWriteOutput)
  end.

(** [Decode] *)
Definition Decode (c : Codec) (inputPath outputPath : string) (useBase64 : bool)
  : IO (result failure unit) :=
  data ← readFile inputPath;
  match data with
  | None => mret (Err FailedToReadInput)
  | Some data =>
    match decodeData c data useBase64 with
    | Err e => mret (Err (DecodeFailed e))
    | Ok decoded =>
      written ← writeFile outputPath decoded;
      if written : bool then
        print (DecodingComplete (length decoded)) ;;
        mret (Ok tt)
      else mret (Err FailedToWriteOutput)
    end
  end.

(** [generateSampleDictionary] *)
Definition generateSampleDictionary (filename : string) : IO (result failure unit) :=
  written ← writeFile filename sample;
  mret (if written : bool then Ok tt else Err WriteFileFailed).

(** The name of the output file: the flag [-o], or the input name with
    the suffix when the flag is empty. *)
Definition outputName (outputFile input suffix : string) : string :=
  if String.eqb outputFile "" then String.append input suffix else outputFile.

(** [main], from the parsed flags to the exit code: 1 after [os.Exit(1)],
    0 when [main] returns. *)
Definition main (f : flags) : IO nat :=
  if genDict f then
    r ← generateSampleDictionary defaultDictFile;
    match r with
    | Err e => print (ErrorLine e) ;; mret 1%nat
    | Ok _ => print (SampleGenerated defaultDictFile) ;; mret 0%nat
    end
  else
    let codec := NewCodec in
    r ← LoadDictionary codec (dictFile f);
    match r with
    | Err e => print (ErrorLine e) ;; mret 1%nat
    | Ok codec =>
      if negb (String.eqb (encodeFile f) "") then
        let output := outputName (outputFile f) (encodeFile f) ".encoded" in
        r ← Encode codec (encodeFile f) output (useBase64 f);
        match r with
        | Err e => print (EncodingError e) ;; mret 1%nat
        | Ok _ => mret 0%nat
        end
      else if negb (String.eqb (decodeFile f) "") then
        let output := outputName (outputFile f) (decodeFile f) ".decoded" in
        r ← Decode codec (decodeFile f) output (useBase64 f);
        match r with
        | Err e => print (DecodingError e) ;; mret 1%nat
        | Ok _ => mret 0%nat
        end
      else print Usage ;; mret 0%nat
    end.

End Program.

(** A file system in memory, with files that cannot be written: a write
    to one of them fails and leaves it as it was. *)
Record memfs : Type := mkMemfs {
  contents : string -> option (list byte);
  writable : string -> bool
}.

Definition memfs_read (fs : memfs) (name : string) : option (list byte) :=
  contents fs name.

Definition memfs_write (fs : memfs) (name : string) (data : list byte) : memfs * bool :=
  if writable fs name then
    (mkMemfs (fun name' => if String.eqb name' name then Some data
                           else contents fs name')
             (writable fs), true)
  else (fs, false).

#[global] Instance memfs_FileSystem : FileSystem memfs := {|
  ReadFile := memfs_read;
  WriteFile := memfs_write
|}.

End cli.

(** The lines that [Encode] prints when it succeeds. *)
Definition encodeReport (unmapped inputSize outputSize : nat) (useBase64 : bool)
  : list cli.line :=
  (if (0 <? unmapped)%nat then [cli.Warning unmapped] else []) ++
  [cli.OriginalSize inputSize] ++
  (if useBase64 then [cli.Base64Size (cli.EncodedLen inputSize)] else []) ++
  [cli.EncodedSize outputSize; cli.EncodingComplete].

(** A state for examples: a dictionary of 256 characters, an input file, a
    file that is no encoded text, and a name that cannot be written. *)
Definition sampleWorld : cli.world cli.memfs :=
  cli.mkWorld
    (cli.mkMemfs
       (fun name =>
          if String.eqb name "dict.md" then Some (sampleDictionary 256)
          else if String.eqb name "in.txt" then Some (bytes "hello")
          else if String.eqb name "bad.txt" then Some (bytes "AA!A")
          else None)
       (fun name => negb (String.eqb name "locked")))
    [].

(** * Verification *)

(** ** Bytes and bit operations *)

Lemma byte_to_Z_range (b : byte) : 0 <= byte_to_Z b < 256.
Proof.
  unfold byte_to_Z. pose proof (Byte.to_N_bounded b). lia.
Qed.

Lemma byte_to_of_Z (z : Z) : byte_to_Z (byte_of_Z z) = z mod 256.
Proof.
  unfold byte_to_Z, byte_of_Z.
  assert (Hr : 0 <= z mod 256 < 256) by (apply Z.mod_pos_bound; lia).
  destruct (Byte.of_N (Z.to_N (z mod 256))) as [b|] eqn:E; simpl.
  - apply Byte.to_of_N in E. rewrite E. lia.
  - apply Byte.of_N_None_iff in E. lia.
Qed.

Lemma byte_to_of_Z_small (z : Z) : 0 <= z < 256 -> byte_to_Z (byte_of_Z z) = z.
Proof. intros H. rewrite byte_to_of_Z. apply Z.mod_small, H. Qed.

Lemma byte_of_to_Z (b : byte) : byte_of_Z (byte_to_Z b) = b.
Proof.
  unfold byte_to_Z, byte_of_Z.
  pose proof (Byte.to_N_bounded b).
  rewrite Z.mod_small by lia.
  rewrite N2Z.id, Byte.of_to_N. reflexivity.
Qed.

Lemma byte_to_Z_inj (a b : byte) : byte_to_Z a = byte_to_Z b -> a = b.
Proof.
  intros H. rewrite <- (byte_of_to_Z a), <- (byte_of_to_Z b). now rewrite H.
Qed.

(** A bitwise or of two numbers with no common bit is their sum. *)
Lemma lor_disjoint_add (n a b : Z) :
  0 <= n -> a mod 2 ^ n = 0 -> 0 <= b < 2 ^ n -> Z.lor a b = a + b.
Proof.
  intros Hn Ha Hb.
  assert (Hland : Z.land a b = 0).
  { apply Z.bits_inj'. intros i Hi.
    rewrite Z.land_spec, Z.bits_0.
    destruct (Z_lt_le_dec i n) as [Hlt|Hge].
    - rewrite <- (Z.mod_pow2_bits_low a n i) by lia.
      rewrite Ha, Z.bits_0. reflexivity.
    - rewrite <- (Z.mod_small b (2 ^ n)) by lia.
      rewrite Z.mod_pow2_bits_high by lia.
      apply andb_false_r. }
  rewrite (Z.add_nocarry_lxor _ _ Hland). symmetry. now apply Z.lxor_lor.
Qed.

Lemma land_mask (a n : Z) : 0 <= n -> Z.land a (2 ^ n - 1) = a mod 2 ^ n.
Proof.
  intros Hn. rewrite <- Z.land_ones by lia. f_equal.
  rewrite Z.ones_equiv. lia.
Qed.

Ltac norm_pow :=
  repeat match goal with
  | |- context [2 ^ ?n] =>
    let v := eval vm_compute in (2 ^ n) in change (2 ^ n) with v
  end.

Ltac zbool :=
  repeat match goal with
  | H : (_ <? _) = true |- _ => apply Z.ltb_lt in H
  | H : (_ <? _) = false |- _ => apply Z.ltb_ge in H
  | H : (_ <=? _) = true |- _ => apply Z.leb_le in H
  | H : (_ <=? _) = false |- _ => apply Z.leb_gt in H
  | H : (_ =? _) = true |- _ => apply Z.eqb_eq in H
  | H : (_ =? _) = false |- _ => apply Z.eqb_neq in H
  | H : (_ && _) = true |- _ => apply andb_true_iff in H; destruct H
  | H : (_ || _) = false |- _ => apply orb_false_iff in H; destruct H
  | H : (_ && _) = false |- _ => apply andb_false_iff in H; destruct H
  | H : (_ || _) = true |- _ => apply orb_true_iff in H; destruct H
  | H : negb _ = true |- _ => apply negb_true_iff in H
  | H : negb _ = false |- _ => apply negb_false_iff in H
  end.

(** Decide the conditions of the [if]s of the goal, innermost first: a
    closed condition is evaluated, another one is split into its two cases,
    of which arithmetic drops the excluded one. *)
Ltac ifs :=
  repeat (cbv beta iota zeta;
    match goal with
    | |- context [if ?c then _ else _] =>
      lazymatch c with
      | context [if _ then _ else _] => fail
      | _ =>
        first
          [ let v := eval vm_compute in c in
            lazymatch v with
            | true => change c with true
            | false => change c with false
            end
          | let E := fresh "E" in destruct c eqn:E; zbool; try lia ]
      end
    end); cbv beta iota zeta.

Lemma shl_or (n a b : Z) : 0 <= n -> 0 <= b < 2 ^ n -> Z.lor (a ≪ n) b = a * 2 ^ n + b.
Proof.
  intros Hn Hb. rewrite Z.shiftl_mul_pow2 by lia.
  apply (lor_disjoint_add n); try lia.
  apply Z.mod_mul. apply Z.pow_nonzero; lia.
Qed.

Lemma tag_or (n t b : Z) : 0 <= n -> t mod 2 ^ n = 0 -> 0 <= b < 2 ^ n -> Z.lor t b = t + b.
Proof. intros. now apply (lor_disjoint_add n). Qed.

Lemma land_3F a : Z.land a 0x3F = a mod 64.
Proof. apply (land_mask a 6). lia. Qed.
Lemma land_1F a : Z.land a 0x1F = a mod 32.
Proof. apply (land_mask a 5). lia. Qed.
Lemma land_0F a : Z.land a 0x0F = a mod 16.
Proof. apply (land_mask a 4). lia. Qed.
Lemma land_07 a : Z.land a 0x07 = a mod 8.
Proof. apply (land_mask a 3). lia. Qed.

Ltac zdm := Z.div_mod_to_equations; lia.

Ltac bytes_eq :=
  repeat match goal with
  | |- _ :: _ = _ :: _ => f_equal
  | |- byte_of_Z _ = byte_of_Z _ => f_equal; zdm
  end.

(** ** [unicode/utf8]: encoding and decoding one rune *)

Lemma EncodeRune_1 r : 0 <= r <= 0x7F -> EncodeRune r = [byte_of_Z r].
Proof.
  intros H. unfold EncodeRune, utf8.AppendRune, utf8.uint32, utf8.rune1Max.
  rewrite Z.mod_small by lia. ifs. reflexivity.
Qed.

Lemma EncodeRune_2 r :
  0x80 <= r <= 0x7FF ->
  EncodeRune r = [byte_of_Z (192 + r / 64); byte_of_Z (128 + r mod 64)].
Proof.
  intros H. unfold EncodeRune, utf8.AppendRune, utf8.appendRuneNonASCII, utf8.uint32,
    utf8.rune1Max, utf8.rune2Max, utf8.u8, utf8.t2, utf8.tx, utf8.maskx.
  rewrite Z.mod_small by lia. ifs. simpl app.
  rewrite !Z.shiftr_div_pow2, !land_3F by lia. norm_pow.
  rewrite (tag_or 6 192), (tag_or 6 128) by (norm_pow; zdm).
  bytes_eq.
Qed.

Lemma EncodeRune_3 r :
  0x800 <= r <= 0xFFFF -> ~ (0xD800 <= r <= 0xDFFF) ->
  EncodeRune r =
    [byte_of_Z (224 + r / 4096); byte_of_Z (128 + (r / 64) mod 64); byte_of_Z (128 + r mod 64)].
Proof.
  intros H Hs. unfold EncodeRune, utf8.AppendRune, utf8.appendRuneNonASCII, utf8.uint32,
    utf8.rune1Max, utf8.rune2Max, utf8.rune3Max, utf8.MaxRune, utf8.surrogateMin,
    utf8.surrogateMax, utf8.u8, utf8.t3, utf8.tx, utf8.maskx.
  rewrite Z.mod_small by lia. ifs; simpl app.
  all: rewrite !Z.shiftr_div_pow2, !land_3F by lia; norm_pow.
  all: rewrite (tag_or 5 224), !(tag_or 6 128) by (norm_pow; zdm).
  all: bytes_eq.
Qed.

Lemma EncodeRune_4 r :
  0x10000 <= r <= 0x10FFFF ->
  EncodeRune r =
    [byte_of_Z (240 + r / 262144); byte_of_Z (128 + (r / 4096) mod 64);
     byte_of_Z (128 + (r / 64) mod 64); byte_of_Z (128 + r mod 64)].
Proof.
  intros H. unfold EncodeRune, utf8.AppendRune, utf8.appendRuneNonASCII, utf8.uint32,
    utf8.rune1Max, utf8.rune2Max, utf8.rune3Max, utf8.MaxRune, utf8.surrogateMin,
    utf8.surrogateMax, utf8.u8, utf8.t4, utf8.tx, utf8.maskx.
  rewrite Z.mod_small by lia. ifs; simpl app.
  all: rewrite !Z.shiftr_div_pow2, !land_3F by lia; norm_pow.
  all: rewrite (tag_or 4 240), !(tag_or 6 128) by (norm_pow; zdm).
  all: bytes_eq.
Qed.

Lemma ValidRune_spec r :
  utf8.ValidRune r = true <-> (0 <= r < 0xD800 \/ 0xDFFF < r <= 0x10FFFF).
Proof.
  unfold utf8.ValidRune, utf8.surrogateMin, utf8.surrogateMax, utf8.MaxRune.
  rewrite orb_true_iff, !andb_true_iff, !Z.leb_le, !Z.ltb_lt. reflexivity.
Qed.

(** An invalid rune is written as [RuneError]. *)
Lemma EncodeRune_invalid r :
  -2 ^ 31 <= r < 2 ^ 31 -> utf8.ValidRune r = false ->
  EncodeRune r = EncodeRune utf8.RuneError.
Proof.
  intros Hr Hv.
  assert (Hn : ~ (0 <= r < 0xD800 \/ 0xDFFF < r <= 0x10FFFF)).
  { rewrite <- ValidRune_spec, Hv. discriminate. }
  transitivity ["239"%byte; "191"%byte; "189"%byte]; [|reflexivity].
  unfold EncodeRune, utf8.AppendRune, utf8.appendRuneNonASCII, utf8.uint32,
    utf8.rune1Max, utf8.rune2Max, utf8.rune3Max, utf8.MaxRune, utf8.surrogateMin,
    utf8.surrogateMax.
  destruct (Z_lt_le_dec r 0) as [Hneg|Hpos].
  - replace (r mod 2 ^ 32) with (r + 2 ^ 32) by (norm_pow; zdm).
    norm_pow. ifs; reflexivity.
  - rewrite Z.mod_small by (norm_pow; lia). ifs; reflexivity.
Qed.


Lemma val2 a b : 0 <= b < 64 -> Z.lor (a ≪ 6) b = a * 64 + b.
Proof. intros. now rewrite (shl_or 6) by (norm_pow; lia). Qed.

Lemma val3 a b c :
  0 <= b < 64 -> 0 <= c < 64 ->
  Z.lor (Z.lor (a ≪ 12) (b ≪ 6)) c = a * 4096 + b * 64 + c.
Proof.
  intros. rewrite (Z.shiftl_mul_pow2 b) by lia.
  rewrite (shl_or 12) by (norm_pow; lia).
  rewrite (lor_disjoint_add 6) by (norm_pow; zdm).
  norm_pow. lia.
Qed.

Lemma val4 a b c d :
  0 <= b < 64 -> 0 <= c < 64 -> 0 <= d < 64 ->
  Z.lor (Z.lor (Z.lor (a ≪ 18) (b ≪ 12)) (c ≪ 6)) d
  = a * 262144 + b * 4096 + c * 64 + d.
Proof.
  intros. rewrite (Z.shiftl_mul_pow2 b), (Z.shiftl_mul_pow2 c) by lia.
  rewrite (shl_or 18) by (norm_pow; lia).
  rewrite (lor_disjoint_add 12 _ (c * 2 ^ 6)) by (norm_pow; zdm).
  rewrite (lor_disjoint_add 6) by (norm_pow; zdm).
  norm_pow. lia.
Qed.

Ltac unfold_utf8 :=
  unfold utf8.DecodeRuneInString, utf8.first, utf8.acceptRanges, utf8.as_, utf8.xx,
    utf8.s1, utf8.s2, utf8.s3, utf8.s4, utf8.s5, utf8.s6, utf8.s7, utf8.locb,
    utf8.hicb, utf8.mask2, utf8.mask3, utf8.mask4, utf8.maskx, utf8.RuneError, fst, snd.

Ltac mod_bounds :=
  repeat match goal with
  | |- context [?a mod 64] =>
    lazymatch goal with
    | _ : 0 <= a mod 64 < 64 |- _ => fail
    | _ => pose proof (Z.mod_pos_bound a 64 eq_refl)
    end
  end.

Lemma Decode_1 v rest :
  0 <= v < 0x80 -> utf8.DecodeRuneInString (byte_of_Z v :: rest) = (v, 1%nat).
Proof.
  intros H. unfold_utf8. rewrite byte_to_of_Z_small by lia. ifs. reflexivity.
Qed.

Lemma Decode_2 v0 v1 rest :
  0xC2 <= v0 <= 0xDF -> 0x80 <= v1 <= 0xBF ->
  utf8.DecodeRuneInString (byte_of_Z v0 :: byte_of_Z v1 :: rest)
  = ((v0 - 0xC0) * 64 + (v1 - 0x80), 2%nat).
Proof.
  intros H0 H1. unfold_utf8. rewrite !byte_to_of_Z_small by lia. ifs.
  rewrite land_1F, land_3F. mod_bounds. rewrite val2 by lia.
  f_equal. zdm.
Qed.

Lemma Decode_3 v0 v1 v2 rest :
  0xE0 <= v0 <= 0xEF -> 0x80 <= v1 <= 0xBF -> 0x80 <= v2 <= 0xBF ->
  (v0 = 0xE0 -> 0xA0 <= v1) -> (v0 = 0xED -> v1 <= 0x9F) ->
  utf8.DecodeRuneInString (byte_of_Z v0 :: byte_of_Z v1 :: byte_of_Z v2 :: rest)
  = ((v0 - 0xE0) * 4096 + (v1 - 0x80) * 64 + (v2 - 0x80), 3%nat).
Proof.
  intros H0 H1 H2 Hlo Hhi. unfold_utf8. rewrite !byte_to_of_Z_small by lia. ifs.
  all: rewrite land_0F, !land_3F; mod_bounds; rewrite val3 by lia.
  all: f_equal; zdm.
Qed.

Lemma Decode_4 v0 v1 v2 v3 rest :
  0xF0 <= v0 <= 0xF4 -> 0x80 <= v1 <= 0xBF -> 0x80 <= v2 <= 0xBF -> 0x80 <= v3 <= 0xBF ->
  (v0 = 0xF0 -> 0x90 <= v1) -> (v0 = 0xF4 -> v1 <= 0x8F) ->
  utf8.DecodeRuneInString
    (byte_of_Z v0 :: byte_of_Z v1 :: byte_of_Z v2 :: byte_of_Z v3 :: rest)
  = ((v0 - 0xF0) * 262144 + (v1 - 0x80) * 4096 + (v2 - 0x80) * 64 + (v3 - 0x80), 4%nat).
Proof.
  intros H0 H1 H2 H3 Hlo Hhi. unfold_utf8. rewrite !byte_to_of_Z_small by lia. ifs.
  all: rewrite land_07, !land_3F; mod_bounds; rewrite val4 by lia.
  all: f_equal; zdm.
Qed.

(** Decoding the encoding of a valid rune gives the rune back, with the
    length of the encoding as its width. *)
Lemma Decode_Encode r rest :
  utf8.ValidRune r = true ->
  utf8.DecodeRuneInString (EncodeRune r ++ rest) = (r, length (EncodeRune r)).
Proof.
  intros Hv. apply ValidRune_spec in Hv.
  destruct (Z_le_gt_dec r 0x7F) as [H1|H1].
  { rewrite EncodeRune_1 by lia. cbn [app length]. rewrite Decode_1 by lia. reflexivity. }
  destruct (Z_le_gt_dec r 0x7FF) as [H2|H2].
  { rewrite EncodeRune_2 by lia. cbn [app length]. rewrite Decode_2 by zdm. f_equal. zdm. }
  destruct (Z_le_gt_dec r 0xFFFF) as [H3|H3].
  { rewrite EncodeRune_3 by lia. cbn [app length]. rewrite Decode_3 by zdm. f_equal. zdm. }
  rewrite EncodeRune_4 by lia. cbn [app length]. rewrite Decode_4 by zdm. f_equal. zdm.
Qed.

Lemma EncodeRune_length r : (1 <= length (EncodeRune r) <= 4)%nat.
Proof.
  unfold EncodeRune, utf8.AppendRune, utf8.appendRuneNonASCII.
  repeat match goal with |- context [if ?c then _ else _] => destruct c end;
    simpl; lia.
Qed.

(** Every rune that decoding yields is a Unicode scalar value. *)
Lemma Decode_valid s : utf8.ValidRune (fst (utf8.DecodeRuneInString s)) = true.
Proof.
  destruct s as [|c0 [|c1 [|c2 [|c3 rest]]]]; try reflexivity.
  all: pose proof (byte_to_Z_range c0).
  all: try pose proof (byte_to_Z_range c1).
  all: try pose proof (byte_to_Z_range c2).
  all: try pose proof (byte_to_Z_range c3).
  all: unfold_utf8; ifs; try reflexivity.
  all: apply ValidRune_spec.
  all: rewrite ?land_1F, ?land_0F, ?land_07, ?land_3F; mod_bounds.
  all: rewrite ?val2, ?val3, ?val4 by lia.
  all: zdm.
Qed.

(** ** The [range] loop *)

Lemma rangeFrom_skip (p rest : list byte) :
  rangeFrom (length p) (p ++ rest) = rangeFrom 0 rest.
Proof. induction p as [|b p IH]; simpl; [reflexivity | exact IH]. Qed.

Lemma runes_decode (p rest : list byte) (r : Z) :
  p <> [] -> utf8.DecodeRuneInString (p ++ rest) = (r, length p) ->
  runes (p ++ rest) = r :: runes rest.
Proof.
  intros Hp Hd. destruct p as [|b p]; [congruence|].
  unfold runes. cbn [rangeFrom app]. cbn [app] in Hd. rewrite Hd.
  cbn [length]. rewrite Nat.sub_succ, Nat.sub_0_r, rangeFrom_skip. reflexivity.
Qed.

Lemma runes_EncodeRune (r : Z) (rest : list byte) :
  utf8.ValidRune r = true -> runes (EncodeRune r ++ rest) = r :: runes rest.
Proof.
  intros Hv. apply runes_decode.
  - pose proof (EncodeRune_length r). destruct (EncodeRune r); simpl in *; [lia | discriminate].
  - now apply Decode_Encode.
Qed.

Lemma runes_flat_map (rs : list Z) (rest : list byte) :
  Forall (fun r => utf8.ValidRune r = true) rs ->
  runes (flat_map EncodeRune rs ++ rest) = rs ++ runes rest.
Proof.
  induction 1 as [|r rs Hr _ IH]; [reflexivity|].
  cbn [flat_map]. rewrite <- app_assoc, runes_EncodeRune by assumption.
  rewrite IH. reflexivity.
Qed.

Lemma rangeFrom_valid (s : list byte) (skip : nat) :
  Forall (fun r => utf8.ValidRune r = true) (rangeFrom skip s).
Proof.
  revert skip. induction s as [|b s IH]; intros skip; [constructor|].
  cbn [rangeFrom]. destruct skip as [|k]; [|apply IH].
  pose proof (Decode_valid (b :: s)) as Hv.
  destruct (utf8.DecodeRuneInString (b :: s)) as [r size].
  constructor; [exact Hv | apply IH].
Qed.

Lemma runes_valid (s : list byte) : Forall (fun r => utf8.ValidRune r = true) (runes s).
Proof. apply rangeFrom_valid. Qed.

(** One byte below [0x80] is one rune. *)
Lemma runes_ascii (b : byte) (rest : list byte) :
  byte_to_Z b < 0x80 -> runes (b :: rest) = byte_to_Z b :: runes rest.
Proof.
  intros Hb. pose proof (byte_to_Z_range b).
  change (b :: rest) with ([b] ++ rest). apply runes_decode; [discriminate|].
  rewrite <- (byte_of_to_Z b) at 1. cbn [app]. rewrite Decode_1 by lia. reflexivity.
Qed.

(** ** [encoding/base64] *)

Lemma byte_of_Z_mod (z : Z) : byte_of_Z (z mod 256) = byte_of_Z z.
Proof. unfold byte_of_Z. rewrite Z.mod_mod by lia. reflexivity. Qed.

(** A property checked on the 64 digits holds for every digit. *)
Lemma digits_forall (P : Z -> bool) :
  forallb (fun k => P (Z.of_nat k)) (seq 0 64) = true ->
  forall v, 0 <= v < 64 -> P v = true.
Proof.
  intros H v Hv. rewrite forallb_forall in H.
  specialize (H (Z.to_nat v)). rewrite Z2Nat.id in H by lia.
  apply H, in_seq. lia.
Qed.

Lemma decodeMap_encode (v : Z) : 0 <= v < 64 -> base64.decodeMap (base64.encode v) = v.
Proof.
  intros Hv. apply Z.eqb_eq.
  revert v Hv. apply (digits_forall (fun v => base64.decodeMap (base64.encode v) =? v)).
  vm_compute. reflexivity.
Qed.

Lemma IndexByte_encode (v : Z) :
  0 <= v < 64 -> IndexByte base64Charset (base64.encode v) <> -1.
Proof.
  intros Hv. apply Z.eqb_neq, negb_true_iff.
  revert v Hv.
  apply (digits_forall (fun v => negb (IndexByte base64Charset (base64.encode v) =? -1))).
  vm_compute. reflexivity.
Qed.

Lemma encode_ascii (v : Z) : 0 <= v < 64 -> byte_to_Z (base64.encode v) < 0x80.
Proof.
  intros Hv. apply Z.ltb_lt. revert v Hv.
  apply (digits_forall (fun v => byte_to_Z (base64.encode v) <? 0x80)).
  vm_compute. reflexivity.
Qed.

(** One digit of the alphabet read by the decoder. *)
Lemma decodeFrom_digit (v : Z) (src : list byte) (dbuf : list Z) (dst : list byte) :
  0 <= v < 64 ->
  base64.decodeFrom (base64.encode v :: src) dbuf dst =
    if (length (dbuf ++ [v]) =? 4)%nat
    then base64.decodeFrom src [] (dst ++ base64.quantum (dbuf ++ [v]) 4)
    else base64.decodeFrom src (dbuf ++ [v]) dst.
Proof.
  intros Hv. cbn [base64.decodeFrom]. rewrite decodeMap_encode by assumption.
  replace (v =? 255) with false by (symmetry; apply Z.eqb_neq; lia).
  reflexivity.
Qed.

Ltac digit_bounds :=
  repeat match goal with
  | |- context [base64.encode (?a mod 64)] =>
    lazymatch goal with
    | _ : 0 <= a mod 64 < 64 |- _ => fail
    | _ => pose proof (Z.mod_pos_bound a 64 eq_refl)
    end
  end.

(** The 24 bits of three bytes. *)
Lemma val24 (a b c : Z) :
  0 <= b < 256 -> 0 <= c < 256 ->
  Z.lor (Z.lor (a ≪ 16) (b ≪ 8)) c = a * 65536 + b * 256 + c.
Proof.
  intros. rewrite (Z.shiftl_mul_pow2 b) by lia.
  rewrite (shl_or 16) by (norm_pow; lia).
  rewrite (lor_disjoint_add 8) by (norm_pow; zdm).
  norm_pow. lia.
Qed.

Lemma val16 (a b : Z) :
  0 <= b < 256 -> Z.lor (a ≪ 16) (b ≪ 8) = a * 65536 + b * 256.
Proof.
  intros. rewrite (Z.shiftl_mul_pow2 b) by lia.
  rewrite (shl_or 16) by (norm_pow; lia). norm_pow. lia.
Qed.

Lemma byte_of_Z_eq (z : Z) (b : byte) : z mod 256 = byte_to_Z b -> byte_of_Z z = b.
Proof. intros H. rewrite <- byte_of_Z_mod, H. apply byte_of_to_Z. Qed.

(** A whole quantum: four digits back to the three bytes. *)
Lemma quantum_3 (a b c : byte) :
  let val := byte_to_Z a * 65536 + byte_to_Z b * 256 + byte_to_Z c in
  base64.quantum [(val / 262144) mod 64; (val / 4096) mod 64; (val / 64) mod 64; val mod 64] 4
  = [a; b; c].
Proof.
  intros val. subst val.
  pose proof (byte_to_Z_range a). pose proof (byte_to_Z_range b).
  pose proof (byte_to_Z_range c).
  unfold base64.quantum. cbn [nth Nat.sub take].
  rewrite val4 by (apply Z.mod_pos_bound; lia).
  rewrite !Z.shiftr_div_pow2 by lia. norm_pow.
  f_equal; [|f_equal; [|f_equal]]; apply byte_of_Z_eq; zdm.
Qed.

Lemma quantum_2 (a b : byte) :
  let val := byte_to_Z a * 65536 + byte_to_Z b * 256 in
  base64.quantum [(val / 262144) mod 64; (val / 4096) mod 64; (val / 64) mod 64] 3
  = [a; b].
Proof.
  intros val. subst val.
  pose proof (byte_to_Z_range a). pose proof (byte_to_Z_range b).
  unfold base64.quantum. cbn [nth Nat.sub take].
  rewrite val4 by (try apply Z.mod_pos_bound; lia).
  rewrite !Z.shiftr_div_pow2 by lia. norm_pow.
  f_equal; [|f_equal]; apply byte_of_Z_eq; zdm.
Qed.

Lemma quantum_1 (a : byte) :
  let val := byte_to_Z a * 65536 in
  base64.quantum [(val / 262144) mod 64; (val / 4096) mod 64] 2 = [a].
Proof.
  intros val. subst val.
  pose proof (byte_to_Z_range a).
  unfold base64.quantum. cbn [nth Nat.sub take].
  rewrite val4 by (try apply Z.mod_pos_bound; lia).
  rewrite !Z.shiftr_div_pow2 by lia. norm_pow.
  f_equal; apply byte_of_Z_eq; zdm.
Qed.

Lemma EncodeToString_3 (a b c : byte) (rest : list byte) :
  let val := byte_to_Z a * 65536 + byte_to_Z b * 256 + byte_to_Z c in
  base64.EncodeToString (a :: b :: c :: rest) =
    [ base64.encode ((val / 262144) mod 64); base64.encode ((val / 4096) mod 64);
      base64.encode ((val / 64) mod 64); base64.encode (val mod 64) ]
    ++ base64.EncodeToString rest.
Proof.
  intros val. subst val. cbn [base64.EncodeToString].
  rewrite val24 by apply byte_to_Z_range.
  rewrite !land_3F, !Z.shiftr_div_pow2 by lia. reflexivity.
Qed.

Lemma EncodeToString_2 (a b : byte) :
  let val := byte_to_Z a * 65536 + byte_to_Z b * 256 in
  base64.EncodeToString [a; b] =
    [ base64.encode ((val / 262144) mod 64); base64.encode ((val / 4096) mod 64);
      base64.encode ((val / 64) mod 64); base64.StdPadding ].
Proof.
  intros val. subst val. cbn [base64.EncodeToString].
  rewrite val16 by apply byte_to_Z_range.
  rewrite !land_3F, !Z.shiftr_div_pow2 by lia. reflexivity.
Qed.

Lemma EncodeToString_1 (a : byte) :
  let val := byte_to_Z a * 65536 in
  base64.EncodeToString [a] =
    [ base64.encode ((val / 262144) mod 64); base64.encode ((val / 4096) mod 64);
      base64.StdPadding; base64.StdPadding ].
Proof.
  intros val. subst val. cbn [base64.EncodeToString].
  rewrite Z.shiftl_mul_pow2, !land_3F, !Z.shiftr_div_pow2 by lia. reflexivity.
Qed.

(** Lists, three elements at a time. *)
Lemma list_ind3 {A} (P : list A -> Prop) :
  P [] -> (forall a, P [a]) -> (forall a b, P [a; b]) ->
  (forall a b c rest, P rest -> P (a :: b :: c :: rest)) ->
  forall l, P l.
Proof.
  intros H0 H1 H2 H3 l.
  assert (H : P l /\ (forall a, P (a :: l)) /\ (forall a b, P (a :: b :: l))).
  { induction l as [|x l (IHa & IHb & IHc)]; [auto|].
    repeat split; auto. }
  apply H.
Qed.

Ltac m64 := apply Z.mod_pos_bound; lia.

Lemma decodeFrom_EncodeToString (src dst : list byte) :
  base64.decodeFrom (base64.EncodeToString src) [] dst = Ok (dst ++ src).
Proof.
  revert dst. induction src as [| a | a b | a b c rest IH] using list_ind3; intros dst.
  - cbn. now rewrite app_nil_r.
  - rewrite EncodeToString_1. cbv zeta.
    rewrite !decodeFrom_digit by m64. cbn [app length Nat.eqb].
    rewrite <- (quantum_1 a). reflexivity.
  - rewrite EncodeToString_2. cbv zeta.
    rewrite !decodeFrom_digit by m64. cbn [app length Nat.eqb].
    rewrite <- (quantum_2 a b). reflexivity.
  - rewrite EncodeToString_3. cbv zeta. cbn [app].
    rewrite !decodeFrom_digit by m64. cbn [app length Nat.eqb].
    rewrite quantum_3, IH, <- app_assoc. reflexivity.
Qed.

(** Standard base64: decoding the encoding gives the bytes back. *)
Lemma DecodeString_EncodeToString (src : list byte) :
  base64.DecodeString (base64.EncodeToString src) = Ok src.
Proof. apply decodeFrom_EncodeToString. Qed.

(** The encoding has four characters for every group of three bytes,
    the last group padded. *)
Lemma EncodeToString_length (src : list byte) :
  length (base64.EncodeToString src) = (4 * ((length src + 2) / 3))%nat.
Proof.
  induction src as [| a | a b | a b c rest IH] using list_ind3; try reflexivity.
  rewrite EncodeToString_3. cbv zeta. cbn [app length]. rewrite IH.
  replace (S (S (S (length rest))) + 2)%nat with (length rest + 2 + 1 * 3)%nat by lia.
  rewrite Nat.div_add by lia. lia.
Qed.

Ltac forall_chars :=
  repeat match goal with
  | |- Forall _ (_ :: _) => constructor
  | |- Forall _ [] => constructor
  | |- base64Char base64.StdPadding => right; reflexivity
  | |- base64Char (base64.encode _) => left; apply IndexByte_encode; m64
  end; try assumption.

Lemma EncodeToString_chars (src : list byte) :
  Forall base64Char (base64.EncodeToString src).
Proof.
  induction src as [| a | a b | a b c rest IH] using list_ind3.
  - constructor.
  - rewrite EncodeToString_1. cbv zeta. forall_chars.
  - rewrite EncodeToString_2. cbv zeta. forall_chars.
  - rewrite EncodeToString_3. cbv zeta. cbn [app]. forall_chars.
Qed.

Lemma base64Char_ascii (c : byte) : base64Char c -> byte_to_Z c < 0x80.
Proof.
  intros [H | ->]; [|vm_compute; reflexivity].
  destruct (Z_lt_le_dec (byte_to_Z c) 0x80) as [Hlt|Hge]; [exact Hlt|].
  exfalso. apply H. clear H.
  destruct c; vm_compute in Hge; first [ now exfalso; apply Hge | reflexivity ].
Qed.

Lemma skipNewlines_spec (src : list byte) :
  exists nl, src = nl ++ base64.skipNewlines src /\
             Forall (fun c => base64.isNewline c = true) nl.
Proof.
  induction src as [|c src (nl & Heq & Hnl)]; [exists []; auto|].
  cbn [base64.skipNewlines]. destruct (base64.isNewline c) eqn:E.
  - exists (c :: nl). split; [cbn [app]; now f_equal | now constructor].
  - exists []. auto.
Qed.

(** A character that is no digit of the alphabet, no padding and no
    newline makes the decoder fail, wherever it stands. *)
Lemma decodeFrom_garbage (src : list byte) (c : byte) :
  c ∈ src -> IndexByte base64Charset c = -1 ->
  base64.isNewline c = false -> c <> base64.StdPadding ->
  forall dbuf dst, base64.decodeFrom src dbuf dst = Err base64.CorruptInput.
Proof.
  intros Hin Hidx Hnl Hpad.
  assert (Hmap : base64.decodeMap c = 0xFF).
  { unfold base64.decodeMap. change base64.encodeStd with base64Charset.
    rewrite Hidx. reflexivity. }
  assert (Hskip : forall l, c ∈ l ->
            exists x l', base64.skipNewlines l = x :: l' /\ (c = x \/ c ∈ l')).
  { intros l Hl. destruct (skipNewlines_spec l) as (nl & Heq & Hall).
    rewrite Heq in Hl. apply elem_of_app in Hl as [Hl|Hl].
    - rewrite Forall_forall in Hall. apply Hall in Hl. congruence.
    - destruct (base64.skipNewlines l) as [|x l']; [inversion Hl|].
      exists x, l'. split; [reflexivity|]. now apply elem_of_cons. }
  induction src as [|x src IH]; intros dbuf dst; [inversion Hin|].
  apply elem_of_cons in Hin. cbn [base64.decodeFrom].
  destruct (negb (base64.decodeMap x =? 255)) eqn:Edigit.
  - assert (Hx : c ∈ src).
    { destruct Hin as [->|Hin]; [|exact Hin].
      rewrite Hmap in Edigit. discriminate. }
    destruct (length (dbuf ++ [base64.decodeMap x]) =? 4)%nat; now apply IH.
  - destruct (base64.isNewline x) eqn:Enl.
    + apply IH. destruct Hin as [->|Hin]; [congruence | exact Hin].
    + destruct (bool_decide (x = base64.StdPadding)) eqn:Epad; [|reflexivity].
      apply bool_decide_eq_true_1 in Epad. cbn [negb].
      assert (Hx : c ∈ src) by (destruct Hin as [->|Hin]; [congruence | exact Hin]).
      destruct (Hskip src Hx) as (y & l' & Hs & Hy). rewrite Hs.
      destruct (length dbuf) as [|[|[|n]]]; try reflexivity.
      destruct (bool_decide (y = base64.StdPadding)) eqn:Ey; [|reflexivity].
      apply bool_decide_eq_true_1 in Ey. cbn [negb].
      destruct Hy as [->|Hy]; [congruence|].
      destruct (Hskip l' Hy) as (z & l'' & -> & _). reflexivity.
Qed.

Lemma DecodeString_garbage (s : list byte) (c : byte) :
  c ∈ s -> IndexByte base64Charset c = -1 ->
  base64.isNewline c = false -> c <> base64.StdPadding ->
  base64.DecodeString s = Err base64.CorruptInput.
Proof. intros Hin Hidx Hnl Hpad. now apply (decodeFrom_garbage s c). Qed.

(** ** The code points of a text *)

(** What decoding finds at the start of a text: an invalid byte, or the
    encoding of a scalar value. *)
Lemma Decode_cases (s : list byte) :
  s <> [] ->
  utf8.DecodeRuneInString s = (utf8.RuneError, 1%nat) \/
  exists r tl, utf8.ValidRune r = true /\ s = EncodeRune r ++ tl.
Proof.
  intros Hs.
  destruct s as [|c0 s]; [congruence|]. clear Hs.
  pose proof (byte_to_Z_range c0) as R0.
  destruct (Z_lt_le_dec (byte_to_Z c0) 0x80) as [Ha|Ha].
  { right. exists (byte_to_Z c0), s. split; [apply ValidRune_spec; lia|].
    rewrite EncodeRune_1 by lia. now rewrite byte_of_to_Z. }
  destruct s as [|c1 s].
  { left. unfold_utf8. ifs; reflexivity. }
  pose proof (byte_to_Z_range c1) as R1.
  destruct (utf8.DecodeRuneInString (c0 :: c1 :: s)) as [r size] eqn:E.
  destruct (decide (size = 1%nat)) as [->|Hsize].
  { left. f_equal. revert E. unfold_utf8. ifs; destruct s as [|c2 [|c3 s]]; ifs; congruence. }
  right. exists r, (drop size (c0 :: c1 :: s)). revert E. unfold_utf8.
  ifs; try (intros [= <- <-]; congruence).
  all: try (destruct s as [|c2 s]; ifs; try (intros [= <- <-]; congruence);
            pose proof (byte_to_Z_range c2) as R2).
  all: try (destruct s as [|c3 s]; ifs; try (intros [= <- <-]; congruence);
            pose proof (byte_to_Z_range c3) as R3).
  all: intros [= <- <-]; cbn [drop].
  all: rewrite ?land_1F, ?land_0F, ?land_07, ?land_3F; mod_bounds.
  all: rewrite ?val2, ?val3, ?val4 by lia.
  all: split; [apply ValidRune_spec; zdm|].
  all: first [ rewrite EncodeRune_2 by zdm
             | rewrite EncodeRune_3 by zdm
             | rewrite EncodeRune_4 by zdm ].
  all: cbn [app].
  all: repeat match goal with |- _ :: _ = _ :: _ => f_equal end.
  all: symmetry; apply byte_of_Z_eq; zdm.
Qed.
Lemma runes_invalid (b : byte) (rest : list byte) :
  utf8.DecodeRuneInString (b :: rest) = (utf8.RuneError, 1%nat) ->
  runes (b :: rest) = utf8.RuneError :: runes rest.
Proof. intros E. unfold runes. cbn [rangeFrom]. rewrite E. reflexivity. Qed.

(** The [range] loop reads the code points of the text. *)
Lemma runes_codePoints (text : list byte) : codePoints text (runes text).
Proof.
  remember (length text) as n eqn:Hn. revert text Hn.
  induction n as [n IH] using lt_wf_ind. intros text Hn.
  destruct text as [|b rest]; [constructor|].
  destruct (Decode_cases (b :: rest)) as [E|(r & tl & Hv & Heq)]; [discriminate| |].
  - rewrite runes_invalid by exact E. constructor.
    + intros r tl Hv Heq. rewrite Heq, Decode_Encode in E by exact Hv.
      injection E as -> E. vm_compute in E. discriminate.
    + apply (IH (length rest)); [subst n; simpl; lia | reflexivity].
  - rewrite Heq, runes_EncodeRune by exact Hv. constructor; [exact Hv|].
    apply (IH (length tl)); [|reflexivity].
    subst n. rewrite Heq, length_app. pose proof (EncodeRune_length r). lia.
Qed.

(** The code points of a text are determined by its bytes. *)
Lemma codePoints_runes (text : list byte) (rs : list Z) :
  codePoints text rs -> rs = runes text.
Proof.
  induction 1 as [|r rest rs Hv _ IH|b rest rs Hno _ IH].
  - reflexivity.
  - rewrite runes_EncodeRune by exact Hv. now f_equal.
  - destruct (Decode_cases (b :: rest)) as [E|(r & tl & Hv & Heq)]; [discriminate| |].
    + rewrite runes_invalid by exact E. now f_equal.
    + exfalso. exact (Hno r tl Hv Heq).
Qed.

Lemma codePoints_iff (text : list byte) (rs : list Z) :
  codePoints text rs <-> rs = runes text.
Proof.
  split; [apply codePoints_runes | intros ->; apply runes_codePoints].
Qed.

(** ** Extraction of the dictionary characters *)

Lemma seenAt_insert (seen : gmap Z bool) (r r' : Z) :
  seenAt (<[r := true]> seen) r' = if decide (r = r') then true else seenAt seen r'.
Proof.
  unfold seenAt. rewrite lookup_insert. destruct (decide (r = r')); reflexivity.
Qed.

Lemma extractInv_init : extractInv [] (∅, []).
Proof.
  split; [|split; [|split]]; simpl.
  - intros r. unfold seenAt. rewrite lookup_empty. simpl. split; [discriminate|].
    intros H. inversion H.
  - constructor.
  - intros r. split; [intros H; inversion H | intros [H _]; inversion H].
  - intros i j x y _ H. rewrite lookup_nil in H. discriminate.
Qed.

Lemma firstOccurrenceOrder_snoc (done chars : list Z) (r : Z) :
  firstOccurrenceOrder done chars -> firstOccurrenceOrder (done ++ [r]) chars.
Proof.
  intros H i j x y Hij Hx Hy.
  destruct (H i j x y Hij Hx Hy) as (pre & post & -> & Hpx & Hpy).
  exists pre, (post ++ [r]). rewrite <- app_assoc. auto.
Qed.

Lemma extractInv_step (done : list Z) (st : gmap Z bool * list Z) (r : Z) :
  extractInv done st -> extractInv (done ++ [r]) (extractStep st r).
Proof.
  destruct st as [seen chars]. intros (Hseen & Hnd & Hmem & Hord). simpl in *.
  unfold extractStep.
  destruct (negb (seenAt seen r) && isChineseChar r) eqn:E.
  - apply andb_true_iff in E as [Hns Hc]. apply negb_true_iff in Hns.
    assert (Hnot : r ∉ chars).
    { intros Hin. apply Hseen in Hin. congruence. }
    assert (Hnd' : r ∉ done).
    { intros Hin. apply Hnot, Hmem. auto. }
    split; [|split; [|split]]; simpl.
    + intros r'. rewrite seenAt_insert, elem_of_app, list_elem_of_singleton.
      destruct (decide (r = r')) as [->|Hne].
      * split; auto.
      * rewrite Hseen. split; [auto | intros [H|H]; [exact H | congruence]].
    + apply NoDup_app. split; [exact Hnd | split; [|apply NoDup_singleton]].
      intros x Hx Hx'. apply list_elem_of_singleton in Hx'. subst. contradiction.
    + intros r'. rewrite !elem_of_app, !list_elem_of_singleton, Hmem.
      split.
      * intros [[H1 H2]| ->]; auto.
      * intros [[H1| ->] H2]; auto.
    + intros i j x y Hij Hx Hy.
      assert (Hi : (i < length chars)%nat).
      { apply lookup_lt_Some in Hy. rewrite length_app in Hy. simpl in Hy. lia. }
      rewrite lookup_app_l in Hx by exact Hi.
      destruct (decide (j < length chars)%nat) as [Hj|Hj].
      * rewrite lookup_app_l in Hy by exact Hj.
        apply (firstOccurrenceOrder_snoc done chars r Hord i j x y Hij Hx Hy).
      * rewrite lookup_app_r in Hy by lia.
        assert (Hy' : y = r).
        { destruct (j - length chars)%nat as [|k]; simpl in Hy; [congruence|].
          rewrite lookup_nil in Hy. discriminate. }
        subst y.
        assert (Hxd : x ∈ done).
        { apply Hmem. apply list_elem_of_lookup. eauto. }
        apply list_elem_of_split_l in Hxd as (pre & post & -> & Hpre).
        exists pre, (post ++ [r]). rewrite <- app_assoc.
        split; [reflexivity | split; [exact Hpre|]].
        intros Hr. apply Hnd'. apply elem_of_app. now left.
  - split; [|split; [|split]]; simpl.
    + exact Hseen.
    + exact Hnd.
    + intros r'. rewrite elem_of_app, list_elem_of_singleton, Hmem.
      split; [intros [H1 H2]; auto|].
      intros [[H1| ->] H2]; [auto|].
      rewrite H2, andb_true_r in E. apply negb_false_iff in E.
      apply Hmem. now apply Hseen.
    + now apply firstOccurrenceOrder_snoc.
Qed.

Lemma extractInv_fold (rs done : list Z) (st : gmap Z bool * list Z) :
  extractInv done st -> extractInv (done ++ rs) (fold_left extractStep rs st).
Proof.
  revert done st. induction rs as [|r rs IH]; intros done st H; simpl.
  - now rewrite app_nil_r.
  - replace (done ++ r :: rs) with ((done ++ [r]) ++ rs) by now rewrite <- app_assoc.
    apply IH, extractInv_step, H.
Qed.

Lemma extractInv_final (text : list byte) :
  extractInv (runes text) (fold_left extractStep (runes text) (∅, [])).
Proof. apply (extractInv_fold (runes text) [] _ extractInv_init). Qed.

Lemma isChineseChar_spec (r : Z) :
  isChineseChar r = true <->
  (0x4E00 <= r <= 0x9FFF \/ 0x3400 <= r <= 0x4DBF \/ 0x20000 <= r <= 0x2A6DF).
Proof.
  unfold isChineseChar.
  rewrite !orb_true_iff, !andb_true_iff, !Z.leb_le. tauto.
Qed.

(** ** The mapping *)

Lemma assignFrom_app (k : nat) (cs1 cs2 : list Z) (c : Codec) :
  assignFrom k (cs1 ++ cs2) c = assignFrom (k + length cs1) cs2 (assignFrom k cs1 c).
Proof.
  revert k c. induction cs1 as [|ch cs1 IH]; intros k c; simpl.
  - now rewrite Nat.add_0_r.
  - rewrite IH. f_equal. lia.
Qed.

Lemma buildRow_spec (chars : list Z) (n i j idx : nat) (c : Codec) :
  idx = (64 * i + j)%nat -> (j + n = 64)%nat ->
  buildRow n i j chars idx c =
    ((idx + Nat.min n (length chars - idx))%nat,
     assignFrom idx (take n (drop idx chars)) c).
Proof.
  revert j idx c. induction n as [|n IH]; intros j idx c Hidx Hj.
  - simpl. now rewrite Nat.add_0_r.
  - cbn [buildRow]. destruct (chars !! idx) as [ch|] eqn:E.
    + pose proof (lookup_lt_Some _ _ _ E) as Hlt.
      rewrite (drop_S _ _ _ E). cbn [take assignFrom].
      rewrite (IH (S j) (S idx)) by lia.
      unfold pairAt, assign. subst idx.
      replace ((64 * i + j) / 64)%nat with i
        by (apply Nat.div_unique with j; lia).
      replace ((64 * i + j) mod 64)%nat with j
        by (apply Nat.mod_unique with i; lia).
      f_equal. lia.
    + apply lookup_ge_None in E. rewrite drop_ge by lia.
      rewrite take_nil. cbn [assignFrom]. f_equal. lia.
Qed.

Lemma buildRows_done (chars : list Z) (n i idx : nat) (c : Codec) :
  (length chars <= idx)%nat -> buildRows n i chars idx c = (idx, c).
Proof.
  intros H. destruct n; [reflexivity|]. cbn [buildRows].
  rewrite bool_decide_eq_false_2 by lia. reflexivity.
Qed.

Lemma buildRows_spec (chars : list Z) (n i idx : nat) (c : Codec) :
  idx = (64 * i)%nat -> (i + n = 64)%nat ->
  snd (buildRows n i chars idx c) = assignFrom idx (take (64 * n) (drop idx chars)) c.
Proof.
  revert i idx c. induction n as [|n IH]; intros i idx c Hidx Hi.
  - reflexivity.
  - cbn [buildRows]. destruct (bool_decide (idx < length chars)%nat) eqn:E.
    + apply bool_decide_eq_true_1 in E.
      rewrite (buildRow_spec chars 64 i 0 idx c) by lia.
      replace (64 * S n)%nat with (64 + 64 * n)%nat by lia.
      rewrite <- (take_take_drop (drop idx chars) 64 (64 * n)), assignFrom_app.
      rewrite drop_drop.
      destruct (decide (64 <= length chars - idx)%nat) as [Hfull|Hpart].
      * rewrite Nat.min_l by lia.
        rewrite (IH (S i) (idx + 64)%nat) by lia.
        rewrite length_take, length_drop, Nat.min_l by lia. reflexivity.
      * rewrite buildRows_done by lia. simpl.
        rewrite (drop_ge chars (idx + 64)) by lia. rewrite take_nil. reflexivity.
    + apply bool_decide_eq_false_1 in E. simpl.
      rewrite drop_ge by lia. rewrite take_nil. reflexivity.
Qed.

(** [buildMapping] assigns the first 4096 characters, in order, to the
    pairs in row-major order. *)
Lemma buildMapping_assignFrom (c : Codec) (chars : list Z) :
  buildMapping c chars = assignFrom 0 (take maxPairs chars) c.
Proof.
  unfold buildMapping. rewrite (buildRows_spec chars 64 0 0 c) by lia.
  reflexivity.
Qed.

Lemma assignFrom_snoc (k : nat) (cs : list Z) (ch : Z) (c : Codec) :
  assignFrom k (cs ++ [ch]) c = assign (pairAt (k + length cs)) ch (assignFrom k cs c).
Proof. rewrite assignFrom_app. reflexivity. Qed.

Lemma charsetAt_lookup (i : nat) :
  (i < 64)%nat -> base64Charset !! i = Some (charsetAt i).
Proof.
  intros Hi. unfold charsetAt. rewrite nth_lookup.
  destruct (base64Charset !! i) eqn:E; [reflexivity|].
  apply lookup_ge_None in E. change (length base64Charset) with 64%nat in E. lia.
Qed.

Lemma charsetAt_inj (i j : nat) :
  (i < 64)%nat -> (j < 64)%nat -> charsetAt i = charsetAt j -> i = j.
Proof.
  intros Hi Hj H.
  assert (Hnd : NoDup base64Charset).
  { apply (bool_decide_unpack _). vm_compute. exact I. }
  apply (NoDup_lookup _ i j (charsetAt i) Hnd).
  - now apply charsetAt_lookup.
  - rewrite H. now apply charsetAt_lookup.
Qed.

Lemma pairAt_inj (k1 k2 : nat) :
  (k1 < 4096)%nat -> (k2 < 4096)%nat -> pairAt k1 = pairAt k2 -> k1 = k2.
Proof.
  intros H1 H2 H. unfold pairAt in H.
  assert (Hd : charsetAt (k1 / 64) = charsetAt (k2 / 64)) by congruence.
  assert (Hm : charsetAt (k1 mod 64) = charsetAt (k2 mod 64)) by congruence.
  apply charsetAt_inj in Hd; [| apply Nat.Div0.div_lt_upper_bound; lia ..].
  apply charsetAt_inj in Hm; [| apply Nat.mod_upper_bound; lia ..].
  rewrite (Nat.div_mod_eq k1 64), (Nat.div_mod_eq k2 64). congruence.
Qed.

Lemma assignFrom_spec (cs : list Z) :
  (length cs <= 4096)%nat -> NoDup cs ->
  (forall p r, pairToRune (assignFrom 0 cs NewCodec) !! p = Some r <-> assigned cs p r) /\
  (forall r p, runeToPair (assignFrom 0 cs NewCodec) !! r = Some p <-> assigned cs p r) /\
  size (pairToRune (assignFrom 0 cs NewCodec)) = length cs /\
  size (runeToPair (assignFrom 0 cs NewCodec)) = length cs.
Proof.
  induction cs as [|ch cs IH] using rev_ind; intros Hlen Hnd.
  - simpl. split; [|split; [|split]]; try reflexivity.
    + intros p r. rewrite lookup_empty. split; [discriminate|].
      intros (k & Hk & _). rewrite lookup_nil in Hk. discriminate.
    + intros r p. rewrite lookup_empty. split; [discriminate|].
      intros (k & Hk & _). rewrite lookup_nil in Hk. discriminate.
  - rewrite length_app in Hlen. simpl in Hlen.
    apply NoDup_app in Hnd as (Hnd & Hfresh & _).
    assert (Hch : ch ∉ cs).
    { intros Hin. apply (Hfresh ch Hin). apply list_elem_of_singleton. reflexivity. }
    destruct IH as (IHp & IHr & IHsp & IHsr); [lia | exact Hnd |].
    rewrite assignFrom_snoc. cbn [Nat.add]. unfold assign. cbn [pairToRune runeToPair].
    split; [|split; [|split]].
    + intros p r. rewrite lookup_insert_Some, IHp. unfold assigned. split.
      * intros [[<- <-] | [Hne (k & Hk & ->)]].
        -- exists (length cs). split; [|reflexivity]. now apply list_lookup_middle.
        -- exists k. split; [|reflexivity]. now apply lookup_app_l_Some.
      * intros (k & Hk & ->). apply lookup_snoc_Some in Hk as [[Hlt Hk] | [-> <-]].
        -- right. split; [|eauto]. intros Heq. apply pairAt_inj in Heq; lia.
        -- now left.
    + intros r p. rewrite lookup_insert_Some, IHr. unfold assigned. split.
      * intros [[<- <-] | [Hne (k & Hk & ->)]].
        -- exists (length cs). split; [|reflexivity]. now apply list_lookup_middle.
        -- exists k. split; [|reflexivity]. now apply lookup_app_l_Some.
      * intros (k & Hk & ->). apply lookup_snoc_Some in Hk as [[Hlt Hk] | [-> <-]].
        -- right. split; [|eauto]. intros <-. apply Hch.
           apply list_elem_of_lookup. eauto.
        -- now left.
    + rewrite map_size_insert_None, IHsp, length_app; [simpl; lia|].
      destruct (pairToRune (assignFrom 0 cs NewCodec) !! pairAt (length cs)) as [r|] eqn:E;
        [|reflexivity].
      apply IHp in E as (k & Hk & Heq). apply lookup_lt_Some in Hk.
      apply pairAt_inj in Heq; lia.
    + rewrite map_size_insert_None, IHsr, length_app; [simpl; lia|].
      destruct (runeToPair (assignFrom 0 cs NewCodec) !! ch) as [p|] eqn:E; [|reflexivity].
      apply IHr in E as (k & Hk & _). exfalso. apply Hch.
      apply list_elem_of_lookup. eauto.
Qed.

Lemma extract_NoDup (text : list byte) : NoDup (extractChineseCharacters text).
Proof. apply (extractInv_final text). Qed.

Lemma extract_elem (text : list byte) (r : Z) :
  r ∈ extractChineseCharacters text <-> r ∈ runes text /\ isChineseChar r = true.
Proof. apply (extractInv_final text). Qed.

(** The entries of a codec built from the characters [chars]. *)
Lemma buildMapping_entries (chars : list Z) :
  NoDup chars ->
  (forall p r, pairToRune (buildMapping NewCodec chars) !! p = Some r
               <-> assigned (take maxPairs chars) p r) /\
  (forall r p, runeToPair (buildMapping NewCodec chars) !! r = Some p
               <-> assigned (take maxPairs chars) p r) /\
  size (pairToRune (buildMapping NewCodec chars)) = Nat.min maxPairs (length chars) /\
  size (runeToPair (buildMapping NewCodec chars)) = Nat.min maxPairs (length chars).
Proof.
  intros Hnd. rewrite buildMapping_assignFrom.
  rewrite <- (length_take chars maxPairs).
  apply assignFrom_spec.
  - rewrite length_take. unfold maxPairs. lia.
  - apply (sublist_NoDup _ chars Hnd), sublist_take.
Qed.

Lemma list_ind2 {A} (P : list A -> Prop) :
  P [] -> (forall a, P [a]) -> (forall a b rest, P rest -> P (a :: b :: rest)) ->
  forall l, P l.
Proof.
  intros H0 H1 H2 l.
  assert (H : P l /\ (forall a, P (a :: l))).
  { induction l as [|x l (IHa & IHb)]; [auto|]. split; auto. }
  apply H.
Qed.

(** ** The encode and decode loops *)

Lemma AppendRune_app (p : list byte) (r : Z) : utf8.AppendRune p r = p ++ EncodeRune r.
Proof.
  unfold EncodeRune, utf8.AppendRune, utf8.appendRuneNonASCII.
  repeat match goal with |- context [if ?c then _ else _] => destruct c end;
    reflexivity.
Qed.

Lemma encodeLoop_spec (c : Codec) (text result : list byte) (unmapped : nat) :
  encodeLoop c text result unmapped =
    (result ++ flat_map (fun seg => fst (encodeSegment c seg)) (segments text),
     (unmapped
      + length (List.filter (fun seg => snd (encodeSegment c seg)) (segments text)))%nat).
Proof.
  revert result unmapped.
  induction text as [| a | a b rest IH] using list_ind2; intros result unmapped.
  - simpl. now rewrite app_nil_r, Nat.add_0_r.
  - simpl. now rewrite app_nil_r, Nat.add_0_r.
  - cbn [encodeLoop segments flat_map List.filter]. unfold encodeSegment at 1 3.
    cbn [fst snd]. destruct (isValidBase64Pair [a; b]).
    + destruct (pairToRune c !! [a; b]) as [char|]; cbn [fst snd].
      * rewrite IH. unfold WriteRune. rewrite AppendRune_app, <- app_assoc.
        reflexivity.
      * rewrite IH, <- app_assoc. cbn [length]. f_equal. lia.
    + rewrite IH, <- app_assoc. reflexivity.
Qed.

Lemma reconstruct_fold (c : Codec) (rs : list Z) (acc : list byte) :
  fold_left (decodeStep c) rs acc = acc ++ flat_map (decodePiece c) rs.
Proof.
  revert acc. induction rs as [|r rs IH]; intros acc; simpl.
  - now rewrite app_nil_r.
  - rewrite IH. unfold decodeStep, decodePiece, WriteRune.
    destruct (runeToPair c !! r); [|rewrite AppendRune_app]; now rewrite <- app_assoc.
Qed.

Lemma reconstruct_spec (c : Codec) (text : list byte) :
  reconstruct c text = flat_map (decodePiece c) (runes text).
Proof. unfold reconstruct. now rewrite reconstruct_fold. Qed.

(** ** Decoding after encoding *)

Lemma isChineseChar_valid (r : Z) : isChineseChar r = true -> utf8.ValidRune r = true.
Proof. rewrite isChineseChar_spec, ValidRune_spec. lia. Qed.

Lemma EncodeRune_high (r : Z) :
  utf8.ValidRune r = true -> 0x80 <= r ->
  Forall (fun b => 0x80 <= byte_to_Z b) (EncodeRune r).
Proof.
  intros Hv Hr. apply ValidRune_spec in Hv.
  destruct (Z_le_gt_dec r 0x7FF) as [H2|H2];
    [|destruct (Z_le_gt_dec r 0xFFFF) as [H3|H3]].
  - rewrite EncodeRune_2 by lia.
    repeat (constructor; [rewrite byte_to_of_Z_small by zdm; zdm|]). constructor.
  - rewrite EncodeRune_3 by lia.
    repeat (constructor; [rewrite byte_to_of_Z_small by zdm; zdm|]). constructor.
  - rewrite EncodeRune_4 by lia.
    repeat (constructor; [rewrite byte_to_of_Z_small by zdm; zdm|]). constructor.
Qed.

(** A byte below [0x80] in a concatenation lies after a prefix of bytes
    from [0x80] on. *)
Lemma app_high_split (l m p q : list byte) (a : byte) :
  Forall (fun b => 0x80 <= byte_to_Z b) l -> byte_to_Z a < 0x80 ->
  l ++ m = p ++ a :: q -> exists p', p = l ++ p' /\ m = p' ++ a :: q.
Proof.
  intros Hl Ha. revert p. induction Hl as [|x l Hx Hl IH]; intros p Heq.
  - exists p. auto.
  - destruct p as [|y p]; simpl in Heq.
    + injection Heq as -> _. lia.
    + injection Heq as -> Heq. destruct (IH p Heq) as (p' & -> & ->).
      exists p'. auto.
Qed.

(** A plain text splits at any of its bytes below [0x80]. *)
Lemma IndexByte_ascii (b : byte) : IndexByte base64Charset b <> -1 -> byte_to_Z b < 0x80.
Proof. intros H. apply base64Char_ascii. now left. Qed.

Lemma isValidBase64Pair_spec (a b : byte) :
  isValidBase64Pair [a; b] = true <->
  IndexByte base64Charset a <> -1 /\ IndexByte base64Charset b <> -1.
Proof.
  unfold isValidBase64Pair.
  rewrite andb_true_iff, !negb_true_iff, !Z.eqb_neq. reflexivity.
Qed.

Lemma IndexByte_ge (s : list byte) (c : byte) : -1 <= IndexByte s c.
Proof.
  induction s as [|b s IH]; simpl; [lia|].
  destruct (decide (b = c)); [lia|].
  destruct (IndexByte s c =? -1); lia.
Qed.

Lemma IndexByte_elem (s : list byte) (c : byte) : IndexByte s c <> -1 <-> c ∈ s.
Proof.
  induction s as [|b s IH]; simpl.
  - split; [congruence | intros H; inversion H].
  - rewrite elem_of_cons. pose proof (IndexByte_ge s c).
    destruct (decide (b = c)) as [->|Hne].
    + split; [auto | lia].
    + destruct (IndexByte s c =? -1) eqn:E.
      * apply Z.eqb_eq in E. split; [congruence|].
        intros [->|Hin]; [congruence|]. apply IH in Hin. congruence.
      * apply Z.eqb_neq in E. split; [intros _; right; now apply IH | lia].
Qed.

(** A codec built from the characters of a dictionary text is well formed. *)
Lemma buildMapping_wf (dict : list byte) :
  codec_wf (buildMapping NewCodec (extractChineseCharacters dict)).
Proof.
  destruct (buildMapping_entries _ (extract_NoDup dict)) as (Hp & Hr & _).
  split.
  - intros p r H. apply Hr, Hp, H.
  - intros r p H. apply Hr in H as (k & Hk & _).
    apply lookup_take_Some in Hk as [Hk _].
    assert (Hin : r ∈ extractChineseCharacters dict)
      by (apply list_elem_of_lookup; eauto).
    now apply extract_elem in Hin.
Qed.

Lemma LoadDictionary_Ok (dict : list byte) (c : Codec) :
  LoadDictionary NewCodec (Some dict) = Ok c ->
  c = buildMapping NewCodec (extractChineseCharacters dict) /\
  (minDictChars <= length (extractChineseCharacters dict))%nat.
Proof.
  unfold LoadDictionary. destruct (bool_decide _) eqn:E; [discriminate|].
  apply bool_decide_eq_false_1 in E. intros [= <-]. split; [reflexivity | lia].
Qed.

Lemma padEven_even (text : list byte) : Nat.even (length (padEven text)) = true.
Proof.
  unfold padEven. destruct (length text mod 2 =? 0)%nat eqn:E; simpl.
  - apply Nat.eqb_eq in E. apply Nat.even_spec. exists (length text / 2)%nat.
    pose proof (Nat.div_mod_eq (length text) 2). lia.
  - apply Nat.eqb_neq in E. rewrite length_app. simpl.
    apply Nat.even_spec. exists ((length text + 1) / 2)%nat.
    pose proof (Nat.div_mod_eq (length text) 2).
    pose proof (Nat.mod_upper_bound (length text) 2).
    pose proof (Nat.div_mod_eq (length text + 1) 2).
    pose proof (Nat.mod_upper_bound (length text + 1) 2).
    assert ((length text + 1) mod 2 = 0)%nat.
    { replace (length text + 1)%nat with (1 + length text)%nat by lia.
      rewrite <- Nat.Div0.add_mod_idemp_r.
      replace (length text mod 2)%nat with 1%nat by lia. reflexivity. }
    lia.
Qed.

Lemma padEven_base64 (data : list byte) :
  padEven (base64.EncodeToString data) = base64.EncodeToString data.
Proof.
  unfold padEven. rewrite EncodeToString_length.
  replace (4 * ((length data + 2) / 3))%nat with (((length data + 2) / 3 * 2) * 2)%nat by lia.
  rewrite Nat.Div0.mod_mul. reflexivity.
Qed.

Lemma encodeData_spec (c : Codec) (data : list byte) (useBase64 : bool) :
  encodeData c data useBase64 =
    flat_map (fun seg => fst (encodeSegment c seg))
      (segments (padEven (intermediate data useBase64))).
Proof. unfold encodeData, encodeDataCount. rewrite encodeLoop_spec. reflexivity. Qed.

Section RoundTrip.

Variable c : Codec.
Hypothesis Hwf : codec_wf c.

Lemma plain_split (p q : list byte) (a : byte) :
  byte_to_Z a < 0x80 -> plain c (p ++ a :: q) -> plain c p /\ plain c q.
Proof.
  intros Ha (rs & Heq & Hall). revert p Heq.
  induction Hall as [|r rs Hr Hall IH]; intros p Heq.
  - destruct p; discriminate.
  - cbn [flat_map] in Heq. destruct Hr as [Hv Hk].
    pose proof Hv as Hv'. apply ValidRune_spec in Hv'.
    destruct (Z_lt_le_dec r 0x80) as [Hlow|Hhigh].
    + rewrite EncodeRune_1 in Heq by lia. destruct p as [|x p]; simpl in Heq.
      * injection Heq as -> ->. split; [exists []; split; [reflexivity|constructor]|].
        exists rs. auto.
      * injection Heq as -> Heq. destruct (IH p Heq) as [(rs1 & -> & H1) Hq].
        split; [|exact Hq]. exists (r :: rs1). cbn [flat_map].
        rewrite EncodeRune_1 by lia. split; [reflexivity|].
        constructor; [split|]; assumption.
    + symmetry in Heq.
      destruct (app_high_split _ _ _ _ _ (EncodeRune_high r Hv Hhigh) Ha Heq)
        as (p' & -> & Heq').
      destruct (IH p' (eq_sym Heq')) as [(rs1 & -> & H1) Hq].
      split; [|exact Hq]. exists (r :: rs1). split; [reflexivity|].
      constructor; [split|]; assumption.
Qed.

(** The decode loop over a plain text followed by more text. *)
Lemma decode_plain_app (p rest : list byte) :
  plain c p ->
  flat_map (decodePiece c) (runes (p ++ rest)) = p ++ flat_map (decodePiece c) (runes rest).
Proof.
  intros (rs & -> & Hall).
  rewrite runes_flat_map by (eapply Forall_impl; [exact Hall | intros r [Hv _]; exact Hv]).
  rewrite flat_map_app. f_equal.
  induction Hall as [|r rs [Hv Hk] _ IH]; [reflexivity|].
  cbn [flat_map]. rewrite IH. unfold decodePiece at 1. now rewrite Hk.
Qed.

(** The output of the encode loop for [rest], written after a text [p]
    that the loop left as it was, decodes to [p] followed by [rest]. *)
Lemma decode_encode_segments (rest : list byte) :
  Nat.even (length rest) = true ->
  forall p, plain c (p ++ rest) ->
  flat_map (decodePiece c)
    (runes (p ++ flat_map (fun seg => fst (encodeSegment c seg)) (segments rest)))
  = p ++ rest.
Proof.
  destruct Hwf as [Hinv Hkeys].
  induction rest as [| a | a b rest IH] using list_ind2; intros Hev p Hp.
  - cbn [segments flat_map]. rewrite app_nil_r in Hp.
    rewrite decode_plain_app by exact Hp. reflexivity.
  - discriminate.
  - cbn [length Nat.even] in Hev. cbn [segments flat_map].
    unfold encodeSegment at 1. cbn [fst snd].
    assert (Hlit :
      flat_map (decodePiece c)
        (runes (p ++ [a; b] ++ flat_map (fun seg => fst (encodeSegment c seg)) (segments rest)))
      = p ++ a :: b :: rest).
    { rewrite app_assoc, (IH Hev (p ++ [a; b])); rewrite <- app_assoc; [reflexivity|].
      exact Hp. }
    destruct (isValidBase64Pair [a; b]) eqn:Hvalid; [|exact Hlit].
    destruct (pairToRune c !! [a; b]) as [char|] eqn:Hmap; [|exact Hlit].
    cbn [fst]. apply isValidBase64Pair_spec in Hvalid as [Ha Hb].
    apply IndexByte_ascii in Ha, Hb.
    destruct (plain_split p (b :: rest) a Ha Hp) as [Hp1 Hp2].
    destruct (plain_split [] rest b Hb Hp2) as [_ Hp3].
    rewrite (decode_plain_app p) by exact Hp1. f_equal.
    pose proof (Hinv _ _ Hmap) as Hrev.
    rewrite runes_EncodeRune by (eapply isChineseChar_valid, Hkeys, Hrev).
    cbn [flat_map]. unfold decodePiece at 1. rewrite Hrev.
    pose proof (IH Hev [] Hp3) as Hrest. cbn [app] in Hrest.
    rewrite Hrest. reflexivity.
Qed.

(** A text of bytes below [0x80] is plain for a well-formed codec. *)
Lemma ascii_plain (s : list byte) :
  Forall (fun b => byte_to_Z b < 0x80) s -> plain c s.
Proof.
  destruct Hwf as [_ Hkeys]. intros Hs. exists (map byte_to_Z s). split.
  - induction Hs as [|b s Hb _ IH]; [reflexivity|].
    cbn [map flat_map]. pose proof (byte_to_Z_range b).
    rewrite EncodeRune_1, byte_of_to_Z by lia. cbn [app]. now f_equal.
  - apply Forall_map. eapply Forall_impl; [exact Hs|].
    intros b Hb. pose proof (byte_to_Z_range b). split.
    + apply ValidRune_spec. lia.
    + destruct (runeToPair c !! byte_to_Z b) as [p|] eqn:E; [|reflexivity].
      apply Hkeys, isChineseChar_spec in E. lia.
Qed.

(** The round trip in base64 mode. *)
Lemma roundtrip_base64 (data : list byte) :
  decodeData c (encodeData c data true) true = Ok data.
Proof.
  unfold decodeData.
  rewrite reconstruct_spec, encodeData_spec. cbn [intermediate].
  rewrite padEven_base64.
  pose proof (decode_encode_segments (base64.EncodeToString data)) as H.
  specialize (H ltac:(rewrite <- padEven_base64; apply padEven_even) []).
  cbn [app] in H. rewrite H; [apply DecodeString_EncodeToString|].
  apply ascii_plain.
  eapply Forall_impl; [apply EncodeToString_chars | apply base64Char_ascii].
Qed.

Lemma roundtrip_raw (data : list byte) :
  rawRoundTrips c data ->
  decodeData c (encodeData c data false) false = Ok data.
Proof.
  intros (Hev & Hutf & Hkeys). unfold decodeData.
  rewrite reconstruct_spec, encodeData_spec. cbn [intermediate].
  assert (Hpad : padEven data = data).
  { unfold padEven. apply Nat.even_spec in Hev as [k Hk]. rewrite Hk.
    replace (2 * k)%nat with (k * 2)%nat by lia. now rewrite Nat.Div0.mod_mul. }
  rewrite Hpad.
  pose proof (decode_encode_segments data Hev []) as H.
  cbn [app] in H. rewrite H; [reflexivity|].
  exists (runes data). split; [now symmetry|].
  pose proof (runes_valid data) as Hv.
  apply Forall_forall. intros r Hr. split.
  - rewrite Forall_forall in Hv. now apply Hv.
  - rewrite Forall_forall in Hkeys. now apply Hkeys.
Qed.

End RoundTrip.

(** ** Dictionaries of distinct characters *)

Lemma extract_fold_distinct (rs : list Z) (seen : gmap Z bool) (chars : list Z) :
  (forall r, seenAt seen r = true <-> r ∈ chars) ->
  NoDup rs ->
  Forall (fun r => isChineseChar r = true /\ r ∉ chars) rs ->
  snd (fold_left extractStep rs (seen, chars)) = chars ++ rs.
Proof.
  revert seen chars. induction rs as [|r rs IH]; intros seen chars Hseen Hnd Hall.
  - simpl. now rewrite app_nil_r.
  - apply NoDup_cons in Hnd as [Hr Hnd].
    apply Forall_cons in Hall as [[Hq Hfresh] Hall].
    cbn [fold_left]. unfold extractStep at 2.
    assert (Hs : seenAt seen r = false).
    { destruct (seenAt seen r) eqn:E; [|reflexivity]. apply Hseen in E. contradiction. }
    rewrite Hs, Hq. cbn [negb andb].
    rewrite IH; [now rewrite <- app_assoc | | exact Hnd |].
    + intros r'. rewrite seenAt_insert, elem_of_app, list_elem_of_singleton.
      destruct (decide (r = r')) as [->|Hne].
      * split; auto.
      * rewrite Hseen. split; [auto | intros [H|H]; [exact H | congruence]].
    + apply Forall_forall. intros r' Hin.
      rewrite Forall_forall in Hall. destruct (Hall r' Hin) as [Hq' Hf'].
      split; [exact Hq'|]. rewrite elem_of_app, list_elem_of_singleton.
      intros [H| ->]; contradiction.
Qed.

(** A text that encodes distinct qualifying characters yields exactly
    these characters, in order. *)
Lemma extract_distinct (rs : list Z) :
  NoDup rs -> Forall (fun r => isChineseChar r = true) rs ->
  extractChineseCharacters (flat_map EncodeRune rs) = rs.
Proof.
  intros Hnd Hall. unfold extractChineseCharacters.
  rewrite <- (app_nil_r (flat_map EncodeRune rs)), runes_flat_map, app_nil_r.
  - apply (extract_fold_distinct rs ∅ []); [|exact Hnd|].
    + intros r. unfold seenAt. rewrite lookup_empty. simpl.
      split; [discriminate | intros H; inversion H].
    + eapply Forall_impl; [exact Hall|]. intros r Hq. split; [exact Hq|].
      intros H. inversion H.
  - eapply Forall_impl; [exact Hall | apply isChineseChar_valid].
Qed.

Lemma extract_sampleDictionary (n : nat) :
  (n <= 4096)%nat -> extractChineseCharacters (sampleDictionary n) = sampleChars n.
Proof.
  intros Hn. apply extract_distinct.
  - apply NoDup_fmap_2; [|apply NoDup_seq]. intros i j H. lia.
  - apply Forall_forall. intros r Hin.
    apply list_elem_of_fmap in Hin as (k & -> & Hk).
    apply elem_of_seq in Hk. apply isChineseChar_spec. lia.
Qed.

Lemma length_sampleChars (n : nat) : length (sampleChars n) = n.
Proof. unfold sampleChars. now rewrite length_map, length_seq. Qed.

(** ** Which texts the standard decoder accepts *)

Lemma IndexByte_lt (s : list byte) (c : byte) : IndexByte s c < Z.of_nat (length s).
Proof.
  induction s as [|b s IH]; cbn [IndexByte length]; [lia|].
  destruct (decide (b = c)); [lia|].
  destruct (IndexByte s c =? -1) eqn:E; lia.
Qed.

Lemma decodeMap_alphabetChar (c : byte) :
  negb (base64.decodeMap c =? 0xFF) = alphabetChar c.
Proof.
  unfold base64.decodeMap, alphabetChar. change base64.encodeStd with base64Charset.
  pose proof (IndexByte_lt base64Charset c) as Hlt.
  change (Z.of_nat (length base64Charset)) with 64 in Hlt.
  pose proof (IndexByte_elem base64Charset c) as Helem.
  destruct (IndexByte base64Charset c =? -1) eqn:E.
  - apply Z.eqb_eq in E. rewrite bool_decide_eq_false_2; [reflexivity|].
    intros Hin. apply Helem in Hin. contradiction.
  - apply Z.eqb_neq in E. rewrite bool_decide_eq_true_2 by (now apply Helem).
    destruct (IndexByte base64Charset c =? 255) eqn:E'; [|reflexivity].
    apply Z.eqb_eq in E'. lia.
Qed.

Lemma alphabetChar_plain (c : byte) :
  alphabetChar c = true -> base64.isNewline c = false /\ c <> base64.StdPadding.
Proof.
  unfold alphabetChar. intros Hc. apply bool_decide_eq_true_1 in Hc. revert c Hc.
  apply Forall_forall. unfold base64Charset, bytes. cbn [list_byte_of_string].
  repeat (constructor; [split; [reflexivity | discriminate]|]). constructor.
Qed.

Lemma withoutNewlines_cons (c : byte) (s : list byte) :
  withoutNewlines (c :: s)
  = if base64.isNewline c then withoutNewlines s else c :: withoutNewlines s.
Proof. unfold withoutNewlines, base64.isNewline. cbn [List.filter]. now destruct (_ || _). Qed.

Lemma skipNewlines_without (s : list byte) :
  match base64.skipNewlines s with
  | [] => withoutNewlines s = []
  | c :: t => base64.isNewline c = false /\ withoutNewlines s = c :: withoutNewlines t
  end.
Proof.
  induction s as [|c s IH]; [reflexivity|].
  cbn [base64.skipNewlines]. rewrite withoutNewlines_cons.
  destruct (base64.isNewline c) eqn:E; [exact IH|]. now rewrite E.
Qed.

Lemma skipNewlines_plain (c : byte) (s : list byte) :
  base64.isNewline c = false -> base64.skipNewlines (c :: s) = c :: s.
Proof. intros E. cbn [base64.skipNewlines]. now rewrite E. Qed.

(** The decoder reads a text as it reads the text without its newlines. *)
Lemma decodeFrom_withoutNewlines (src : list byte) (dbuf : list Z) (dst : list byte) :
  base64.decodeFrom src dbuf dst = base64.decodeFrom (withoutNewlines src) dbuf dst.
Proof.
  revert dbuf dst. induction src as [|c src IH]; intros dbuf dst; [reflexivity|].
  rewrite withoutNewlines_cons. cbn [base64.decodeFrom].
  rewrite decodeMap_alphabetChar.
  destruct (alphabetChar c) eqn:Ec.
  - destruct (alphabetChar_plain c Ec) as [-> _]. cbn [base64.decodeFrom].
    rewrite decodeMap_alphabetChar, Ec.
    destruct (length (dbuf ++ [base64.decodeMap c]) =? 4)%nat; apply IH.
  - destruct (base64.isNewline c) eqn:En; [apply IH|].
    cbn [base64.decodeFrom]. rewrite decodeMap_alphabetChar, Ec, En.
    destruct (negb (bool_decide (c = base64.StdPadding))); [reflexivity|].
    destruct (length dbuf) as [|[|[|n]]]; try reflexivity.
    + pose proof (skipNewlines_without src) as Hs.
      destruct (base64.skipNewlines src) as [|c' src'].
      * rewrite Hs. reflexivity.
      * destruct Hs as [En' ->]. rewrite (skipNewlines_plain _ _ En').
        destruct (negb (bool_decide (c' = base64.StdPadding))); [reflexivity|].
        pose proof (skipNewlines_without src') as Hs'.
        destruct (base64.skipNewlines src') as [|c'' src''].
        -- rewrite Hs'. reflexivity.
        -- destruct Hs' as [En'' ->]. now rewrite (skipNewlines_plain _ _ En'').
    + pose proof (skipNewlines_without src) as Hs.
      destruct (base64.skipNewlines src) as [|c' src'].
      * rewrite Hs. reflexivity.
      * destruct Hs as [En' ->]. now rewrite (skipNewlines_plain _ _ En').
Qed.
Lemma list_ind4 {A} (P : list A -> Prop) :
  P [] -> (forall a, P [a]) -> (forall a b, P [a; b]) -> (forall a b c, P [a; b; c]) ->
  (forall a b c d rest, P rest -> P (a :: b :: c :: d :: rest)) ->
  forall l, P l.
Proof.
  intros H0 H1 H2 H3 H4.
  assert (H : forall l, P l /\ P (tl l) /\ P (tl (tl l)) /\ P (tl (tl (tl l)))).
  { induction l as [|a l (Ha & Hb & Hc & Hd)]; [repeat split; exact H0|].
    cbn [tl]. repeat split; try assumption.
    destruct l as [|b [|c [|d rest]]]; auto. }
  intros l. apply H.
Qed.

Ltac decode_step :=
  cbn [base64.decodeFrom]; rewrite ?decodeMap_alphabetChar;
  repeat match goal with
  | E : alphabetChar ?c = _ |- context [alphabetChar ?c] => rewrite E
  | E : base64.isNewline ?c = _ |- context [base64.isNewline ?c] => rewrite E
  end; cbn [negb app length Nat.eqb].

Lemma decodeFrom_valid (s : list byte) :
  Forall (fun c => base64.isNewline c = false) s ->
  forall dst, succeeds (base64.decodeFrom s [] dst) = validBase64 s.
Proof.
  induction s as [|a|a b|a b c|a b c d rest IH] using list_ind4; intros Hnl dst.
  - reflexivity.
  - apply Forall_cons in Hnl as [Ea _].
    destruct (alphabetChar a) eqn:Da; decode_step; [reflexivity|].
    destruct (bool_decide (a = base64.StdPadding)); reflexivity.
  - apply Forall_cons in Hnl as [Ea Hnl]. apply Forall_cons in Hnl as [Eb _].
    destruct (alphabetChar a) eqn:Da; decode_step.
    + destruct (alphabetChar b) eqn:Db; decode_step; [reflexivity|].
      destruct (bool_decide (b = base64.StdPadding)); reflexivity.
    + destruct (bool_decide (a = base64.StdPadding)); reflexivity.
  - apply Forall_cons in Hnl as [Ea Hnl]. apply Forall_cons in Hnl as [Eb Hnl].
    apply Forall_cons in Hnl as [Ec _].
    destruct (alphabetChar a) eqn:Da; decode_step.
    + destruct (alphabetChar b) eqn:Db; decode_step.
      * destruct (alphabetChar c) eqn:Dc; decode_step; [reflexivity|].
        destruct (bool_decide (c = base64.StdPadding)); reflexivity.
      * destruct (bool_decide (b = base64.StdPadding)); reflexivity.
    + destruct (bool_decide (a = base64.StdPadding)); reflexivity.
  - apply Forall_cons in Hnl as [Ea Hnl]. apply Forall_cons in Hnl as [Eb Hnl].
    apply Forall_cons in Hnl as [Ec Hnl]. apply Forall_cons in Hnl as [Ed Hnl].
    specialize (IH Hnl).
    assert (Hskip : rest <> [] -> exists e rest', base64.skipNewlines rest = e :: rest').
    { destruct Hnl as [|e rest' Ee _]; [congruence|]. intros _.
      exists e, rest'. now apply skipNewlines_plain. }
    assert (Hv : validBase64 (a :: b :: c :: d :: rest) =
                 match rest with
                 | [] => alphabetChar a && alphabetChar b &&
                         ((alphabetChar c && (alphabetChar d || bool_decide (d = "="%byte)))
                          || (bool_decide (c = "="%byte) && bool_decide (d = "="%byte)))
                 | _ => alphabetChar a && alphabetChar b && alphabetChar c && alphabetChar d
                        && validBase64 rest
                 end) by (destruct rest; reflexivity).
    rewrite Hv. clear Hv.
    destruct (alphabetChar a) eqn:Da; decode_step.
    2: { destruct (bool_decide (a = base64.StdPadding)); destruct rest; reflexivity. }
    destruct (alphabetChar b) eqn:Db; decode_step.
    2: { destruct (bool_decide (b = base64.StdPadding)); destruct rest; reflexivity. }
    destruct (alphabetChar c) eqn:Dc; decode_step.
    + destruct (alphabetChar d) eqn:Dd; decode_step.
      * rewrite IH. destruct rest; reflexivity.
      * change base64.StdPadding with "="%byte.
        destruct (bool_decide (d = "="%byte)); cbn [negb orb andb].
        -- destruct rest as [|e rest']; [reflexivity|].
           destruct Hskip as (e' & rest'' & ->); [discriminate | reflexivity].
        -- destruct rest; cbn [andb orb]; rewrite ?andb_false_r; reflexivity.
    + change base64.StdPadding with "="%byte.
      destruct (bool_decide (c = "="%byte)); cbn [negb orb andb].
      * rewrite (skipNewlines_plain _ _ Ed).
        destruct (bool_decide (d = "="%byte)); cbn [negb orb andb].
        -- destruct rest as [|e rest']; [reflexivity|].
           destruct Hskip as (e' & rest'' & ->); [discriminate | reflexivity].
        -- destruct rest; reflexivity.
      * destruct rest; reflexivity.
Qed.

Lemma withoutNewlines_plain (s : list byte) :
  Forall (fun c => base64.isNewline c = false) (withoutNewlines s).
Proof.
  induction s as [|c s IH]; [constructor|]. rewrite withoutNewlines_cons.
  destruct (base64.isNewline c) eqn:E; [exact IH | now constructor].
Qed.

(** The standard decoder accepts a text exactly when the text, without
    its newlines, is standard base64. *)
Lemma DecodeString_valid (s : list byte) :
  succeeds (base64.DecodeString s) = validBase64 (withoutNewlines s).
Proof.
  unfold base64.DecodeString. rewrite decodeFrom_withoutNewlines.
  apply decodeFrom_valid, withoutNewlines_plain.
Qed.

Lemma DecodeString_Err (s : list byte) (e : base64.CorruptInputError) :
  base64.DecodeString s = Err e <-> validBase64 (withoutNewlines s) = false.
Proof.
  rewrite <- DecodeString_valid.
  destruct (base64.DecodeString s) as [bs|[]]; destruct e; cbn [succeeds];
    split; congruence.
Qed.

Lemma withoutNewlines_id (s : list byte) :
  Forall (fun c => base64.isNewline c = false) s -> withoutNewlines s = s.
Proof.
  induction 1 as [|c s Hc _ IH]; [reflexivity|].
  now rewrite withoutNewlines_cons, Hc, IH.
Qed.

(** A text of characters of the alphabet is standard base64 when its
    length is a multiple of four; followed by one padding character it is
    when the padding makes a group of three characters complete. *)
Lemma alphabet_text_valid (t : list byte) :
  Forall (fun c => alphabetChar c = true) t ->
  validBase64 t = (length t mod 4 =? 0)%nat /\
  validBase64 (t ++ ["="%byte]) = (length t mod 4 =? 3)%nat.
Proof.
  induction t as [|a|a b|a b c|a b c d rest IH] using list_ind4; intros Ht.
  - split; reflexivity.
  - split; reflexivity.
  - split; reflexivity.
  - apply Forall_cons in Ht as [Ha Ht]. apply Forall_cons in Ht as [Hb Ht].
    apply Forall_cons in Ht as [Hc _].
    split; [reflexivity|]. cbn [app validBase64]. rewrite Ha, Hb, Hc. reflexivity.
  - apply Forall_cons in Ht as [Ha Ht]. apply Forall_cons in Ht as [Hb Ht].
    apply Forall_cons in Ht as [Hc Ht]. apply Forall_cons in Ht as [Hd Ht].
    destruct (IH Ht) as [IH0 IH1].
    change (length (a :: b :: c :: d :: rest)) with (4 + length rest)%nat.
    replace ((4 + length rest) mod 4)%nat with (length rest mod 4)%nat
      by (rewrite <- (Nat.Div0.add_mod_idemp_l 4); reflexivity).
    rewrite <- IH0, <- IH1. split.
    + destruct rest; cbn [validBase64]; rewrite Ha, Hb, Hc, Hd; reflexivity.
    + cbn [app]. destruct rest; cbn [app validBase64]; rewrite Ha, Hb, Hc, Hd; reflexivity.
Qed.

(** * The claims *)

Lemma LoadDictionary_sufficient (dict : list byte) :
  (minDictChars <= length (extractChineseCharacters dict))%nat ->
  LoadDictionary NewCodec (Some dict)
  = Ok (buildMapping NewCodec (extractChineseCharacters dict)).
Proof.
  intros H. unfold LoadDictionary. rewrite bool_decide_eq_false_2 by lia. reflexivity.
Qed.

Lemma sampleDictionary_256 :
  length (extractChineseCharacters (sampleDictionary 256)) = 256%nat.
Proof. rewrite extract_sampleDictionary by lia. apply length_sampleChars. Qed.

Lemma sampleCodec_loaded :
  LoadDictionary NewCodec (Some (sampleDictionary 256)) = Ok sampleCodec.
Proof.
  apply LoadDictionary_sufficient. rewrite sampleDictionary_256. reflexivity.
Qed.

(** C1, as stated, fails: in raw mode the byte ["A"] is padded to ["A="],
    which is no pair of the alphabet, passes through the encoder and comes
    back from the decoder with its padding. *)
Lemma roundtrip_raw_odd_length_fails :
  LoadDictionary NewCodec (Some (sampleDictionary 256)) = Ok sampleCodec /\
  decodeData sampleCodec (encodeData sampleCodec (bytes "A") false) false
    = Ok (bytes "A=") /\
  decodeData sampleCodec (encodeData sampleCodec (bytes "A") false) false
    <> Ok (bytes "A").
Proof.
  split; [exact sampleCodec_loaded | split].
  - vm_compute. reflexivity.
  - vm_compute. discriminate.
Qed.

(** Raw mode also changes bytes that are not UTF-8: each is read as the
    rune U+FFFD and written as its three-byte encoding. *)
Example roundtrip_raw_invalid_utf8 :
  decodeData sampleCodec
    (encodeData sampleCodec ["255"%byte; "255"%byte] false) false
  = Ok ["239"%byte; "191"%byte; "189"%byte; "239"%byte; "191"%byte; "189"%byte].
Proof. vm_compute. reflexivity. Qed.

(** Raw mode also changes a dictionary character of the data: the decoder
    replaces it by its pair. *)
Example roundtrip_raw_dictionary_char :
  decodeData sampleCodec
    (encodeData sampleCodec (EncodeRune 0x4E00 ++ bytes "B") false) false
  = Ok (bytes "AAB").
Proof. vm_compute. reflexivity. Qed.

(** C1 (amended): with the codec loaded from a dictionary, decoding the
    encoding gives the data back for every byte sequence in base64 mode,
    and in raw mode for the data of even length that is the UTF-8 encoding
    of its runes and contains no mapped dictionary character. *)
Theorem decode_encode_roundtrip
    (dict data : list byte) (c : Codec) (useBase64 : bool) :
  LoadDictionary NewCodec (Some dict) = Ok c ->
  (useBase64 = false -> rawRoundTrips c data) ->
  decodeData c (encodeData c data useBase64) useBase64 = Ok data.
Proof.
  intros Hload Hraw. apply LoadDictionary_Ok in Hload as [-> _].
  pose proof (buildMapping_wf dict) as Hwf.
  destruct useBase64.
  - now apply roundtrip_base64.
  - apply roundtrip_raw; auto.
Qed.

(** The round trip in raw mode on a text of eight bytes, with the codec of
    the 256-character sample dictionary. *)
Lemma decode_encode_roundtrip_witness :
  LoadDictionary NewCodec (Some (sampleDictionary 256)) = Ok sampleCodec /\
  (false = false -> rawRoundTrips sampleCodec (bytes "AAAB, hi")) /\
  decodeData sampleCodec (encodeData sampleCodec (bytes "AAAB, hi") false) false
    = Ok (bytes "AAAB, hi").
Proof.
  assert (Hraw : false = false -> rawRoundTrips sampleCodec (bytes "AAAB, hi")).
  { intros _. split; [reflexivity | split; [reflexivity|]].
    vm_compute. repeat constructor. }
  split; [exact sampleCodec_loaded | split; [exact Hraw|]].
  exact (decode_encode_roundtrip (sampleDictionary 256) (bytes "AAAB, hi")
           sampleCodec false sampleCodec_loaded Hraw).
Defined.

(** The same in base64 mode, on data of odd length. *)
Example roundtrip_base64_sample :
  decodeData sampleCodec (encodeData sampleCodec (bytes "hello") true) true
  = Ok (bytes "hello").
Proof. vm_compute. reflexivity. Qed.

(** C2: the mapping built from a dictionary text assigns the [k]-th
    qualifying character to the [k]-th pair in row-major order, for exactly
    the [k] below [min 4096 (number of qualifying characters)]; the two maps
    hold the same entries, that many of them, no pair shares a character and
    no character a pair; with 4096 characters or more every pair of the
    alphabet has its own character, which maps back to it. *)
Theorem buildMapping_row_major (dict : list byte) :
  let chars := extractChineseCharacters dict in
  let c := buildMapping NewCodec chars in
  let n := Nat.min maxPairs (length chars) in
  (forall k char, (k < n)%nat -> chars !! k = Some char ->
     pairToRune c !! pairAt k = Some char /\ runeToPair c !! char = Some (pairAt k)) /\
  (forall p r, pairToRune c !! p = Some r ->
     exists k, (k < n)%nat /\ chars !! k = Some r /\ p = pairAt k) /\
  (forall p r, pairToRune c !! p = Some r <-> runeToPair c !! r = Some p) /\
  size (pairToRune c) = n /\ size (runeToPair c) = n /\
  (forall p1 p2 r, pairToRune c !! p1 = Some r -> pairToRune c !! p2 = Some r -> p1 = p2) /\
  (forall r1 r2 p, runeToPair c !! r1 = Some p -> runeToPair c !! r2 = Some p -> r1 = r2) /\
  ((4096 <= length chars)%nat ->
   forall i j, (i < 64)%nat -> (j < 64)%nat ->
     exists r, chars !! (64 * i + j)%nat = Some r /\
               pairToRune c !! [charsetAt i; charsetAt j] = Some r /\
               runeToPair c !! r = Some [charsetAt i; charsetAt j]).
Proof.
  intros chars c n.
  pose proof (extract_NoDup dict) as Hnd. fold chars in Hnd.
  destruct (buildMapping_entries chars Hnd) as (Hp & Hr & Hsp & Hsr).
  fold c in Hp, Hr, Hsp, Hsr. fold n in Hsp, Hsr.
  assert (Hto : forall k char, (k < n)%nat -> chars !! k = Some char ->
            assigned (take maxPairs chars) (pairAt k) char).
  { intros k char Hk Hc. exists k. split; [|reflexivity].
    apply lookup_take_Some. split; [exact Hc | unfold n in Hk; lia]. }
  assert (Hfrom : forall p r, assigned (take maxPairs chars) p r ->
            exists k, (k < n)%nat /\ chars !! k = Some r /\ p = pairAt k).
  { intros p r (k & Hk & ->). apply lookup_take_Some in Hk as [Hk Hlt].
    exists k. split; [|auto]. apply lookup_lt_Some in Hk. unfold n. lia. }
  split; [|split; [|split; [|split; [|split; [|split; [|split]]]]]].
  - intros k char Hk Hc. split; [apply Hp | apply Hr]; now apply Hto.
  - intros p r H. apply Hfrom, Hp, H.
  - intros p r. rewrite Hp, Hr. reflexivity.
  - exact Hsp.
  - exact Hsr.
  - intros p1 p2 r H1 H2.
    apply Hp, Hfrom in H1 as (k1 & _ & Hk1 & ->).
    apply Hp, Hfrom in H2 as (k2 & _ & Hk2 & ->).
    now rewrite (NoDup_lookup _ _ _ _ Hnd Hk1 Hk2).
  - intros r1 r2 p H1 H2.
    apply Hr, Hfrom in H1 as (k1 & Hn1 & Hk1 & ->).
    apply Hr, Hfrom in H2 as (k2 & Hn2 & Hk2 & Heq).
    apply pairAt_inj in Heq; [| unfold n, maxPairs in *; lia ..].
    subst k2. congruence.
  - intros Hfull i j Hi Hj.
    assert (Hk : (64 * i + j < n)%nat) by (unfold n, maxPairs; lia).
    destruct (lookup_lt_is_Some_2 chars (64 * i + j)) as [r Hc];
      [unfold n in Hk; lia|].
    assert (Hpair : pairAt (64 * i + j) = [charsetAt i; charsetAt j]).
    { unfold pairAt.
      replace ((64 * i + j) / 64)%nat with i by (apply Nat.div_unique with j; lia).
      replace ((64 * i + j) mod 64)%nat with j by (apply Nat.mod_unique with i; lia).
      reflexivity. }
    exists r. rewrite <- Hpair. split; [exact Hc|].
    split; [apply Hp | apply Hr]; now apply Hto.
Qed.

Example mapping_sample :
  pairToRune sampleCodec !! bytes "AB" = Some 0x4E01 /\
  runeToPair sampleCodec !! 0x4E01 = Some (bytes "AB") /\
  pairToRune sampleCodec !! bytes "D/" = Some 0x4EFF /\
  pairToRune sampleCodec !! bytes "EA" = None /\
  size (pairToRune sampleCodec) = 256%nat /\
  size (runeToPair sampleCodec) = 256%nat.
Proof. vm_compute. repeat split. Qed.




(** With 256 characters the pair ["EA"], the 257th, is not mapped: it is
    written as it is and counted; ["=A"] is written as it is, not counted. *)
Example encode_sample :
  encodeDataCount sampleCodec (bytes "ABEA=A") false
  = (EncodeRune 0x4E01 ++ bytes "EA=A", 1%nat).
Proof. vm_compute. reflexivity. Qed.

(** C4: the decoder scans the text one code point at a time and
    concatenates one piece per code point, in order: the associated pair
    for a key of the reverse map, the code point itself otherwise.  The
    code points [rs] are those of the bytes of the text, and no other list
    is.  With a codec built from a dictionary the pair has two bytes, and
    no code point below U+3400 (the padding character and the characters
    of the alphabet among them, each one byte) is a key. *)
Theorem decode_scan (dict text : list byte) :
  let c := buildMapping NewCodec (extractChineseCharacters dict) in
  (exists (rs : list Z) (pieces : list (list byte)),
     codePoints text rs /\
     (forall rs', codePoints text rs' -> rs' = rs) /\
     reconstruct c text = concat pieces /\
     Forall2 (fun r piece =>
                match runeToPair c !! r with
                | Some pr => piece = pr /\ length pr = 2%nat
                | None => piece = EncodeRune r /\ codePoints piece [r]
                end) rs pieces) /\
  (forall r, r < 0x3400 -> runeToPair c !! r = None) /\
  (forall b : byte, byte_to_Z b < 0x80 -> EncodeRune (byte_to_Z b) = [b]).
Proof.
  intros c.
  destruct (buildMapping_entries _ (extract_NoDup dict)) as (_ & Hr & _).
  fold c in Hr.
  destruct (buildMapping_wf dict) as [_ Hkeys]. fold c in Hkeys.
  split; [|split].
  - exists (runes text), (map (decodePiece c) (runes text)).
    split; [apply runes_codePoints|].
    split; [intros rs' Hrs'; now apply codePoints_runes|].
    split.
    + rewrite reconstruct_spec.
      induction (runes text) as [|r rs IH]; [reflexivity|].
      cbn [flat_map map concat]. now rewrite IH.
    + apply Forall2_fmap_r, Forall_Forall2_diag.
      eapply Forall_impl; [apply runes_valid|].
      intros r Hv. unfold compose, decodePiece.
      destruct (runeToPair c !! r) as [pr|] eqn:E.
      * split; [reflexivity|]. apply Hr in E as (k & _ & ->). reflexivity.
      * split; [reflexivity|]. rewrite <- (app_nil_r (EncodeRune r)).
        constructor; [exact Hv | constructor].
  - intros r Hlow. destruct (runeToPair c !! r) as [p|] eqn:E; [|reflexivity].
    apply Hkeys, isChineseChar_spec in E. lia.
  - intros b Hb. pose proof (byte_to_Z_range b).
    rewrite EncodeRune_1 by lia. now rewrite byte_of_to_Z.
Qed.

(** The padding and a pair that was left unmapped come back as they are. *)
Example decode_scan_sample :
  reconstruct sampleCodec (EncodeRune 0x4E01 ++ bytes "EA==") = bytes "ABEA==".
Proof. vm_compute. reflexivity. Qed.

(** C5, as stated, fails: a reconstructed text with a line feed in it is
    not standard base64, yet the decoder passes over the line feed and
    decoding succeeds. *)
Lemma decode_accepts_line_breaks :
  reconstruct sampleCodec (bytes "AA" ++ "010"%byte :: bytes "==")
    = bytes "AA" ++ "010"%byte :: bytes "==" /\
  validBase64 (bytes "AA" ++ "010"%byte :: bytes "==") = false /\
  Decode sampleCodec (Some (bytes "AA" ++ "010"%byte :: bytes "==")) true
    = Ok ["000"%byte].
Proof. vm_compute. repeat split. Qed.

(** C5 (amended): decoding fails exactly when the base64 flag is set and
    the reconstructed text, without its line feeds and carriage returns, is
    not standard base64, and the failure is a [DecodeError]; without the
    flag decoding returns the bytes of the reconstructed text. *)
Theorem decode_error (c : Codec) (text : list byte) (useBase64 : bool) :
  (forall e, Decode c (Some text) useBase64 = Err e <->
     useBase64 = true /\
     validBase64 (withoutNewlines (reconstruct c text)) = false /\
     e = DecodeError base64.CorruptInput) /\
  (forall e, decodeData c text useBase64 = Err e <->
     useBase64 = true /\
     validBase64 (withoutNewlines (reconstruct c text)) = false) /\
  decodeData c text false = Ok (reconstruct c text) /\
  Decode c (Some text) false = Ok (reconstruct c text).
Proof.
  pose proof (DecodeString_Err (reconstruct c text) base64.CorruptInput) as Hv.
  unfold Decode, decodeData.
  destruct useBase64; (split; [|split; [|split]]); try reflexivity.
  - intros e. destruct (base64.DecodeString (reconstruct c text)) as [bs|[]].
    + split; [discriminate|]. intros (_ & H & _). apply Hv in H. discriminate.
    + split.
      * intros [= <-]. split; [reflexivity | split; [now apply Hv | reflexivity]].
      * intros (_ & _ & ->). reflexivity.
  - intros []. rewrite Hv. split; [auto | intros [_ H]; exact H].
  - intros e. split; [discriminate | intros (H & _); discriminate].
  - intros e. split; [discriminate | intros (H & _); discriminate].
Qed.

Example decode_error_sample :
  decodeData sampleCodec (EncodeRune 0x4E00 ++ bytes "=") true = Err base64.CorruptInput /\
  decodeData sampleCodec (EncodeRune 0x4E00 ++ bytes "=") false = Ok (bytes "AA=") /\
  decodeData sampleCodec (EncodeRune 0x4E00 ++ bytes "==") true = Ok ["000"%byte].
Proof. vm_compute. repeat split. Qed.

(** C6: loading fails with [InsufficientDictionary], carrying the number
    of characters found and the 256 required, exactly when fewer than 256
    distinct qualifying characters are found; otherwise it builds the
    mapping.  With 255 characters it fails, with 256 it succeeds. *)
Theorem load_threshold (content : list byte) :
  let chars := extractChineseCharacters content in
  (forall e, LoadDictionary NewCodec (Some content) = Err e <->
     (length chars < 256)%nat /\ e = InsufficientDictionary (length chars) 256) /\
  (forall c, LoadDictionary NewCodec (Some content) = Ok c <->
     (256 <= length chars)%nat /\ c = buildMapping NewCodec chars) /\
  (length chars = 255%nat ->
     LoadDictionary NewCodec (Some content) = Err (InsufficientDictionary 255 256)) /\
  (length chars = 256%nat ->
     LoadDictionary NewCodec (Some content) = Ok (buildMapping NewCodec chars)).
Proof.
  intros chars. unfold LoadDictionary. fold chars. unfold minDictChars.
  destruct (bool_decide (length chars < 256)%nat) eqn:E.
  - apply bool_decide_eq_true_1 in E.
    split; [|split; [|split]].
    + intros e. split; [intros [= <-]; auto | intros [_ ->]; reflexivity].
    + intros c. split; [discriminate | intros [H _]; lia].
    + intros H. rewrite H. reflexivity.
    + intros H. lia.
  - apply bool_decide_eq_false_1 in E.
    split; [|split; [|split]].
    + intros e. split; [discriminate | intros [H _]; lia].
    + intros c. split; [intros [= <-]; split; [lia | reflexivity] | intros [_ ->]; reflexivity].
    + intros H. lia.
    + intros _. reflexivity.
Qed.

Lemma sampleDictionary_255 :
  length (extractChineseCharacters (sampleDictionary 255)) = 255%nat.
Proof. rewrite extract_sampleDictionary by lia. apply length_sampleChars. Qed.

Example load_255 :
  LoadDictionary NewCodec (Some (sampleDictionary 255))
  = Err (InsufficientDictionary 255 256).
Proof.
  unfold LoadDictionary. rewrite sampleDictionary_255. reflexivity.
Qed.

Example load_256 :
  LoadDictionary NewCodec (Some (sampleDictionary 256))
  = Ok (buildMapping NewCodec (extractChineseCharacters (sampleDictionary 256))).
Proof.
  apply LoadDictionary_sufficient. rewrite sampleDictionary_256. reflexivity.
Qed.

(** C7: the extracted characters are the qualifying code points of the
    text, each once, in the order of their first occurrences, where the
    code points [rs] are those of the bytes of the text, read from left to
    right; a code point qualifies exactly when it lies in one of the three
    CJK ranges. *)
Theorem extract_first_occurrences (text : list byte) :
  let chars := extractChineseCharacters text in
  (exists rs : list Z,
     codePoints text rs /\
     (forall rs', codePoints text rs' -> rs' = rs) /\
     NoDup chars /\
     (forall r, r ∈ chars <-> r ∈ rs /\ isChineseChar r = true) /\
     firstOccurrenceOrder rs chars) /\
  (forall r, isChineseChar r = true <->
     (0x4E00 <= r <= 0x9FFF \/ 0x3400 <= r <= 0x4DBF \/ 0x20000 <= r <= 0x2A6DF)).
Proof.
  intros chars. destruct (extractInv_final text) as (_ & Hnd & Hmem & Hord).
  split; [|exact isChineseChar_spec].
  exists (runes text).
  split; [apply runes_codePoints|].
  split; [intros rs' Hrs'; now apply codePoints_runes|].
  split; [exact Hnd | split; [exact Hmem | exact Hord]].
Qed.

Example extract_sample :
  extractChineseCharacters
    (bytes "a" ++ EncodeRune 0x7B2C ++ EncodeRune 0x4E00 ++ bytes "=" ++ EncodeRune 0x7B2C
     ++ EncodeRune 0x3042 ++ EncodeRune 0x20000 ++ EncodeRune 0x4E00)
  = [0x7B2C; 0x4E00; 0x20000].
Proof. vm_compute. reflexivity. Qed.

Lemma even_mod2 (n : nat) : Nat.Even n <-> (n mod 2 = 0)%nat.
Proof.
  split.
  - intros [k ->]. replace (2 * k)%nat with (k * 2)%nat by lia. apply Nat.Div0.mod_mul.
  - intros H. exists (n / 2)%nat. pose proof (Nat.div_mod_eq n 2). lia.
Qed.

Lemma padEven_cases (text : list byte) :
  (Nat.Odd (length text) -> padEven text = text ++ ["="%byte]) /\
  (Nat.Even (length text) -> padEven text = text).
Proof.
  unfold padEven. destruct (length text mod 2 =? 0)%nat eqn:E; simpl.
  - apply Nat.eqb_eq, even_mod2 in E. split; [|reflexivity].
    intros Hodd. exfalso. apply (Nat.Even_Odd_False _ E Hodd).
  - apply Nat.eqb_neq in E. split; [reflexivity|].
    intros Hev. apply even_mod2 in Hev. contradiction.
Qed.

(** C8, as stated, fails: the base64 text of the one-byte input has four
    characters, so nothing is appended to it; and where a padding character
    is appended to a text of odd length, the standard decoder does not
    discard it: it rejects ["AAAAA="], and it reads the padding of
    ["AAA="] as the end of the last group, which it rejects without it. *)
Lemma appended_padding_not_discarded :
  padEven (intermediate ["000"%byte] true) = bytes "AA==" /\
  padEven (bytes "AAAAA") = bytes "AAAAA=" /\
  base64.DecodeString (padEven (bytes "AAAAA")) = Err base64.CorruptInput /\
  padEven (bytes "AAA") = bytes "AAA=" /\
  base64.DecodeString (padEven (bytes "AAA")) = Ok ["000"%byte; "000"%byte] /\
  base64.DecodeString (bytes "AAA") = Err base64.CorruptInput.
Proof. vm_compute. repeat split. Qed.

(** C8 (amended): a text of odd length gets exactly one ['='] appended, a
    text of even length none, so the padded text has even length.  In
    base64 mode the text has even length: nothing is appended, and
    standard decoding of the padded text gives the data back.  A padding
    character appended to a text of characters of the alphabet is not
    discarded by the standard decoder: the text of odd length is rejected
    without it, and accepted with it only when it completes a last group
    of three characters. *)
Theorem padding_to_even (text data : list byte) :
  (Nat.Odd (length text) -> padEven text = text ++ ["="%byte]) /\
  (Nat.Even (length text) -> padEven text = text) /\
  Nat.Even (length (padEven text)) /\
  padEven (intermediate data true) = intermediate data true /\
  base64.DecodeString (padEven (intermediate data true)) = Ok data /\
  (Forall (fun c => alphabetChar c = true) text -> Nat.Odd (length text) ->
   base64.DecodeString text = Err base64.CorruptInput /\
   succeeds (base64.DecodeString (padEven text)) = (length text mod 4 =? 3)%nat).
Proof.
  destruct (padEven_cases text) as [Hodd Hev].
  split; [exact Hodd | split; [exact Hev | split; [|split; [|split]]]].
  - apply Nat.even_spec, padEven_even.
  - apply padEven_base64.
  - cbn [intermediate]. rewrite padEven_base64. apply DecodeString_EncodeToString.
  - intros Ht Ho. destruct (alphabet_text_valid text Ht) as [H0 H1].
    assert (Hplain : Forall (fun c => base64.isNewline c = false) text).
    { eapply Forall_impl; [exact Ht|]. intros c Hc. now apply alphabetChar_plain. }
    split.
    + apply DecodeString_Err. rewrite withoutNewlines_id, H0 by exact Hplain.
      apply Nat.eqb_neq. destruct Ho as [k Hk]. rewrite Hk. intros Hm.
      pose proof (Nat.div_mod_eq (2 * k + 1) 4). lia.
    + rewrite (Hodd Ho), DecodeString_valid, withoutNewlines_id; [exact H1|].
      apply Forall_app. split; [exact Hplain | repeat constructor].
Qed.

Example padding_odd : padEven (bytes "abc") = bytes "abc=".
Proof. reflexivity. Qed.

Example padding_even : padEven (bytes "ab") = bytes "ab".
Proof. reflexivity. Qed.

(** C10: the base64 text of any data has a length that is a multiple of
    4, so in base64 mode the padding step appends nothing; the padding step
    changes the text only in raw mode, on data of odd length. *)
Theorem base64_needs_no_padding (data : list byte) :
  (length (intermediate data true) mod 4 = 0)%nat /\
  padEven (intermediate data true) = intermediate data true /\
  (forall useBase64,
     padEven (intermediate data useBase64) <> intermediate data useBase64 <->
     useBase64 = false /\ Nat.Odd (length data)).
Proof.
  assert (Hlen : (length (base64.EncodeToString data) mod 4 = 0)%nat).
  { rewrite EncodeToString_length, Nat.mul_comm. apply Nat.Div0.mod_mul. }
  split; [exact Hlen | split; [apply padEven_base64|]].
  intros [|]; cbn [intermediate].
  - rewrite padEven_base64. split; [congruence | intros [H _]; discriminate].
  - destruct (padEven_cases data) as [Hodd Hev].
    destruct (Nat.Even_or_Odd (length data)) as [He|Ho].
    + rewrite (Hev He). split; [congruence|].
      intros [_ Ho]. exfalso. apply (Nat.Even_Odd_False _ He Ho).
    + rewrite (Hodd Ho). split; [auto|]. intros _ Heq.
      apply (f_equal length) in Heq. rewrite length_app in Heq. simpl in Heq. lia.
Qed.

Lemma runes_bytes_eq_eq : runes (bytes "==") = [61; 61].
Proof. vm_compute. reflexivity. Qed.

(** C9: with a dictionary of exactly 4096 qualifying characters, the
    first of them [char0], the byte [0x00] in base64 mode has the base64
    text ["AA=="], which needs no padding and splits into ["AA"] and
    ["=="]; ["AA"] is the pair of row 0 and column 0 and maps to [char0],
    ["=="] is no pair of the alphabet and passes through; the encoded
    output is [char0] followed by ["=="]; decoding rebuilds ["AA=="] and
    returns the byte [0x00]. *)
Theorem scenario_zero_byte (dict : list byte) (char0 : Z) :
  length (extractChineseCharacters dict) = 4096%nat ->
  extractChineseCharacters dict !! 0%nat = Some char0 ->
  exists c,
    LoadDictionary NewCodec (Some dict) = Ok c /\
    size (pairToRune c) = 4096%nat /\
    intermediate ["000"%byte] true = bytes "AA==" /\
    padEven (bytes "AA==") = bytes "AA==" /\
    segments (bytes "AA==") = [("A"%byte, "A"%byte); ("="%byte, "="%byte)] /\
    pairAt 0 = bytes "AA" /\
    pairToRune c !! bytes "AA" = Some char0 /\
    isValidBase64Pair (bytes "==") = false /\
    encodeDataCount c ["000"%byte] true = (EncodeRune char0 ++ bytes "==", 0%nat) /\
    reconstruct c (encodeData c ["000"%byte] true) = bytes "AA==" /\
    decodeData c (encodeData c ["000"%byte] true) true = Ok ["000"%byte].
Proof.
  intros Hlen H0.
  set (chars := extractChineseCharacters dict) in *.
  exists (buildMapping NewCodec chars).
  destruct (buildMapping_entries chars (extract_NoDup dict)) as (Hp & Hr & Hsp & _).
  destruct (buildMapping_wf dict) as [Hinv Hkeys]. fold chars in Hinv, Hkeys.
  assert (Hmap : pairToRune (buildMapping NewCodec chars) !! bytes "AA" = Some char0).
  { apply Hp. exists 0%nat. split; [|reflexivity].
    apply lookup_take_Some. split; [exact H0 | unfold maxPairs; lia]. }
  assert (Henc : encodeDataCount (buildMapping NewCodec chars) ["000"%byte] true
                 = (EncodeRune char0 ++ bytes "==", 0%nat)).
  { unfold encodeDataCount. rewrite encodeLoop_spec.
    change (padEven (intermediate ["000"%byte] true)) with (bytes "AA==").
    change (segments (bytes "AA==")) with [("A"%byte, "A"%byte); ("="%byte, "="%byte)].
    cbn [flat_map List.filter]. unfold encodeSegment. cbn [fst snd].
    change (isValidBase64Pair ["A"%byte; "A"%byte]) with true.
    change (isValidBase64Pair ["="%byte; "="%byte]) with false.
    change ["A"%byte; "A"%byte] with (bytes "AA"). rewrite Hmap.
    cbn [fst snd app length Nat.add]. reflexivity. }
  assert (Hrec : reconstruct (buildMapping NewCodec chars)
                   (EncodeRune char0 ++ bytes "==") = bytes "AA==").
  { rewrite reconstruct_spec.
    rewrite runes_EncodeRune by (eapply isChineseChar_valid, Hkeys, Hinv, Hmap).
    rewrite runes_bytes_eq_eq. cbn [flat_map]. unfold decodePiece.
    rewrite (Hinv _ _ Hmap).
    destruct (runeToPair (buildMapping NewCodec chars) !! 61) as [p|] eqn:E.
    - apply Hkeys in E. discriminate E.
    - reflexivity. }
  split; [|split; [|split; [|split; [|split; [|split; [|split; [|split; [|split; [|split]]]]]]]]];
    try reflexivity.
  - apply LoadDictionary_sufficient. fold chars. rewrite Hlen. unfold minDictChars. lia.
  - rewrite Hsp, Hlen. reflexivity.
  - exact Hmap.
  - exact Henc.
  - unfold encodeData. rewrite Henc. exact Hrec.
  - unfold decodeData, encodeData. rewrite Henc. cbn [fst]. rewrite Hrec.
    vm_compute. reflexivity.
Qed.

Lemma sampleDictionary_4096 :
  length (extractChineseCharacters (sampleDictionary 4096)) = 4096%nat /\
  extractChineseCharacters (sampleDictionary 4096) !! 0%nat = Some 0x4E00.
Proof.
  rewrite extract_sampleDictionary by lia.
  split; [apply length_sampleChars | reflexivity].
Qed.

(** The scenario with the dictionary of the 4096 characters from U+4E00
    on. *)
Lemma scenario_zero_byte_witness :
  length (extractChineseCharacters (sampleDictionary 4096)) = 4096%nat /\
  extractChineseCharacters (sampleDictionary 4096) !! 0%nat = Some 0x4E00 /\
  exists c,
    LoadDictionary NewCodec (Some (sampleDictionary 4096)) = Ok c /\
    size (pairToRune c) = 4096%nat /\
    intermediate ["000"%byte] true = bytes "AA==" /\
    padEven (bytes "AA==") = bytes "AA==" /\
    segments (bytes "AA==") = [("A"%byte, "A"%byte); ("="%byte, "="%byte)] /\
    pairAt 0 = bytes "AA" /\
    pairToRune c !! bytes "AA" = Some 0x4E00 /\
    isValidBase64Pair (bytes "==") = false /\
    encodeDataCount c ["000"%byte] true = (EncodeRune 0x4E00 ++ bytes "==", 0%nat) /\
    reconstruct c (encodeData c ["000"%byte] true) = bytes "AA==" /\
    decodeData c (encodeData c ["000"%byte] true) true = Ok ["000"%byte].
Proof.
  split; [apply sampleDictionary_4096 | split; [apply sampleDictionary_4096|]].
  apply (scenario_zero_byte (sampleDictionary 4096) 0x4E00); apply sampleDictionary_4096.
Defined.

(** * Further properties of the codec *)

(** ** The size of the encoded text *)

Lemma EncodeRune_chinese_length (r : Z) :
  isChineseChar r = true -> (3 <= length (EncodeRune r) <= 4)%nat.
Proof.
  intros H. apply isChineseChar_spec in H.
  destruct (Z_le_gt_dec r 0xFFFF).
  - rewrite EncodeRune_3 by lia. simpl. lia.
  - rewrite EncodeRune_4 by lia. simpl. lia.
Qed.

Lemma pairToRune_chinese (c : Codec) (p : list byte) (r : Z) :
  codec_wf c -> pairToRune c !! p = Some r -> isChineseChar r = true.
Proof. intros [Hinv Hkeys] H. eapply Hkeys, Hinv, H. Qed.

Lemma encodeSegment_length (c : Codec) (seg : byte * byte) :
  codec_wf c -> (2 <= length (fst (encodeSegment c seg)) <= 4)%nat.
Proof.
  intros Hwf. unfold encodeSegment.
  destruct (isValidBase64Pair _); [|simpl; lia].
  destruct (pairToRune c !! _) as [char|] eqn:E; [|simpl; lia].
  cbn [fst]. pose proof (EncodeRune_chinese_length char (pairToRune_chinese c _ _ Hwf E)).
  lia.
Qed.

Lemma segments_length (text : list byte) :
  Nat.even (length text) = true -> length text = (2 * length (segments text))%nat.
Proof.
  induction text as [| a | a b rest IH] using list_ind2; intros Hev.
  - reflexivity.
  - discriminate.
  - cbn [segments length]. rewrite (IH Hev). lia.
Qed.

Lemma encodeSegments_length (c : Codec) (segs : list (byte * byte)) :
  codec_wf c ->
  (2 * length segs
   <= length (flat_map (fun seg => fst (encodeSegment c seg)) segs)
   <= 4 * length segs)%nat.
Proof.
  intros Hwf. induction segs as [|seg segs IH]; [simpl; lia|].
  cbn [flat_map]. rewrite length_app. cbn [length].
  pose proof (encodeSegment_length c seg Hwf). lia.
Qed.

Lemma intermediate_length (data : list byte) (useBase64 : bool) :
  (length data <= length (padEven (intermediate data useBase64)))%nat.
Proof.
  destruct useBase64; cbn [intermediate].
  - rewrite padEven_base64, EncodeToString_length.
    pose proof (Nat.div_mod_eq (length data + 2) 3).
    pose proof (Nat.mod_upper_bound (length data + 2) 3). lia.
  - unfold padEven. destruct (negb _); [rewrite length_app|]; lia.
Qed.

(** X1: the codec never compresses.  With a codec built from a
    dictionary, every two bytes of the padded intermediate text become two
    to four bytes of output, so the output is at least as long as the
    padded text, at most twice as long, and never shorter than the data. *)
Theorem encode_never_shrinks (dict data : list byte) (useBase64 : bool) :
  let c := buildMapping NewCodec (extractChineseCharacters dict) in
  let text := padEven (intermediate data useBase64) in
  (length text <= length (encodeData c data useBase64) <= 2 * length text)%nat /\
  (length data <= length (encodeData c data useBase64))%nat.
Proof.
  intros c text.
  pose proof (buildMapping_wf dict) as Hwf. fold c in Hwf.
  pose proof (segments_length text (padEven_even _)) as Hlen.
  pose proof (encodeSegments_length c (segments text) Hwf) as Hseg.
  pose proof (intermediate_length data useBase64) as Hdata. fold text in Hdata.
  rewrite encodeData_spec. fold text. lia.
Qed.

(** ** The characters of the encoded text *)

Lemma EncodeRune_byte (b : byte) : byte_to_Z b < 0x80 -> EncodeRune (byte_to_Z b) = [b].
Proof.
  intros Hb. pose proof (byte_to_Z_range b).
  rewrite EncodeRune_1 by lia. now rewrite byte_of_to_Z.
Qed.

Lemma ValidRune_byte (b : byte) : utf8.ValidRune (byte_to_Z b) = true.
Proof. pose proof (byte_to_Z_range b). apply ValidRune_spec. lia. Qed.

Lemma encodeSegment_runes (c : Codec) (seg : byte * byte) :
  codec_wf c -> byte_to_Z (fst seg) < 0x80 -> byte_to_Z (snd seg) < 0x80 ->
  fst (encodeSegment c seg) = flat_map EncodeRune (segmentRunes c seg) /\
  Forall (fun r => utf8.ValidRune r = true) (segmentRunes c seg).
Proof.
  intros Hwf Ha Hb. unfold encodeSegment, segmentRunes.
  assert (Hlit : [fst seg; snd seg] = flat_map EncodeRune (map byte_to_Z [fst seg; snd seg]) /\
                 Forall (fun r => utf8.ValidRune r = true) (map byte_to_Z [fst seg; snd seg])).
  { cbn [map flat_map]. rewrite !EncodeRune_byte by assumption. split; [reflexivity|].
    constructor; [apply ValidRune_byte | constructor; [apply ValidRune_byte | constructor]]. }
  destruct (isValidBase64Pair _); [|exact Hlit].
  destruct (pairToRune c !! _) as [char|] eqn:E; [|exact Hlit].
  cbn [fst flat_map]. rewrite app_nil_r. split; [reflexivity|].
  constructor; [|constructor].
  apply isChineseChar_valid. eapply pairToRune_chinese; eauto.
Qed.

Lemma segments_ascii (text : list byte) :
  Forall (fun b => byte_to_Z b < 0x80) text ->
  Forall (fun seg => byte_to_Z (fst seg) < 0x80 /\ byte_to_Z (snd seg) < 0x80) (segments text).
Proof.
  induction text as [| a | a b rest IH] using list_ind2; intros H; cbn [segments].
  - constructor.
  - constructor.
  - apply Forall_cons in H as [Ha H]. apply Forall_cons in H as [Hb H].
    constructor; [split; assumption | apply IH, H].
Qed.

(** The encoding of a text of bytes below [0x80] is the UTF-8 encoding of
    the runes written for its segments. *)
Lemma encode_ascii_runes (c : Codec) (text : list byte) :
  codec_wf c -> Forall (fun b => byte_to_Z b < 0x80) text ->
  flat_map (fun seg => fst (encodeSegment c seg)) (segments text)
    = flat_map EncodeRune (flat_map (segmentRunes c) (segments text)) /\
  Forall (fun r => utf8.ValidRune r = true) (flat_map (segmentRunes c) (segments text)).
Proof.
  intros Hwf Htext. apply segments_ascii in Htext.
  induction Htext as [|seg segs [Ha Hb] _ [IH1 IH2]]; [split; [reflexivity | constructor]|].
  destruct (encodeSegment_runes c seg Hwf Ha Hb) as [H1 H2].
  cbn [flat_map]. rewrite flat_map_app, H1, IH1. split; [reflexivity|].
  now apply Forall_app.
Qed.

Lemma base64_text_ascii (data : list byte) :
  Forall (fun b => byte_to_Z b < 0x80) (base64.EncodeToString data).
Proof. eapply Forall_impl; [apply EncodeToString_chars | apply base64Char_ascii]. Qed.

Lemma encodeData_base64_runes (c : Codec) (data : list byte) :
  codec_wf c ->
  encodeData c data true
    = flat_map EncodeRune
        (flat_map (segmentRunes c) (segments (base64.EncodeToString data))) /\
  runes (encodeData c data true)
    = flat_map (segmentRunes c) (segments (base64.EncodeToString data)).
Proof.
  intros Hwf. rewrite encodeData_spec. cbn [intermediate]. rewrite padEven_base64.
  destruct (encode_ascii_runes c _ Hwf (base64_text_ascii data)) as [H1 H2].
  rewrite H1. split; [reflexivity|].
  rewrite <- (app_nil_r (flat_map EncodeRune _)), runes_flat_map by exact H2.
  apply app_nil_r.
Qed.

Lemma segments_chars (P : byte -> Prop) (text : list byte) :
  Forall P text -> Forall (fun seg => P (fst seg) /\ P (snd seg)) (segments text).
Proof.
  induction text as [| a | a b rest IH] using list_ind2; intros H; cbn [segments].
  - constructor.
  - constructor.
  - apply Forall_cons in H as [Ha H]. apply Forall_cons in H as [Hb H].
    constructor; [split; assumption | apply IH, H].
Qed.

(** X2: the format of the encoded text.  In base64 mode, with a codec
    built from a dictionary, the output is valid UTF-8 (it is the encoding
    of its own runes) and each of its runes is a character of the mapping,
    a character of the base64 alphabet or the padding character. *)
Theorem encoded_text_format (dict data : list byte) :
  let c := buildMapping NewCodec (extractChineseCharacters dict) in
  let out := encodeData c data true in
  flat_map EncodeRune (runes out) = out /\
  Forall (fun r => (exists p, pairToRune c !! p = Some r) \/
                   (exists b, r = byte_to_Z b /\ base64Char b)) (runes out).
Proof.
  intros c out.
  pose proof (buildMapping_wf dict) as Hwf. fold c in Hwf.
  destruct (encodeData_base64_runes c data Hwf) as [Hout Hrunes]. fold out in Hout, Hrunes.
  split; [now rewrite Hrunes|].
  rewrite Hrunes. clear Hout Hrunes.
  pose proof (segments_chars base64Char _ (EncodeToString_chars data)) as Hsegs.
  induction Hsegs as [|seg segs [Ha Hb] _ IH]; [constructor|].
  cbn [flat_map]. apply Forall_app. split; [|exact IH].
  unfold segmentRunes.
  assert (Hlit : Forall (fun r => (exists p, pairToRune c !! p = Some r) \/
                   (exists b, r = byte_to_Z b /\ base64Char b))
                   (map byte_to_Z [fst seg; snd seg])).
  { cbn [map]. constructor; [right; eauto | constructor; [right; eauto | constructor]]. }
  destruct (isValidBase64Pair _); [|exact Hlit].
  destruct (pairToRune c !! _) as [char|] eqn:E; [|exact Hlit].
  constructor; [left; eauto | constructor].
Qed.

(** ** A full dictionary *)

Lemma encode_charsetAt (v : Z) : base64.encode v = charsetAt (Z.to_nat v).
Proof. reflexivity. Qed.

Lemma isValidBase64Pair_digits (v0 v1 : Z) :
  0 <= v0 < 64 -> 0 <= v1 < 64 ->
  isValidBase64Pair [base64.encode v0; base64.encode v1] = true.
Proof.
  intros H0 H1. apply isValidBase64Pair_spec. split; now apply IndexByte_encode.
Qed.

Lemma isValidBase64Pair_padding (a : byte) :
  isValidBase64Pair [a; base64.StdPadding] = false.
Proof.
  unfold isValidBase64Pair.
  change (IndexByte base64Charset base64.StdPadding) with (-1).
  apply andb_false_r.
Qed.

(** With 4096 characters or more every pair of digits is mapped. *)
Lemma full_dictionary_pair (chars : list Z) (v0 v1 : Z) :
  NoDup chars -> (4096 <= length chars)%nat ->
  0 <= v0 < 64 -> 0 <= v1 < 64 ->
  exists char, pairToRune (buildMapping NewCodec chars)
                 !! [base64.encode v0; base64.encode v1] = Some char.
Proof.
  intros Hnd Hlen H0 H1.
  destruct (buildMapping_entries chars Hnd) as (Hp & _).
  set (k := (64 * Z.to_nat v0 + Z.to_nat v1)%nat).
  assert (Hk : (k < 4096)%nat) by (unfold k; lia).
  destruct (lookup_lt_is_Some_2 chars k) as [char Hc]; [lia|].
  exists char. apply Hp. exists k. split.
  - apply lookup_take_Some. split; [exact Hc | unfold maxPairs; lia].
  - unfold pairAt, k. rewrite !encode_charsetAt.
    replace ((64 * Z.to_nat v0 + Z.to_nat v1) / 64)%nat with (Z.to_nat v0)
      by (apply Nat.div_unique with (Z.to_nat v1); lia).
    replace ((64 * Z.to_nat v0 + Z.to_nat v1) mod 64)%nat with (Z.to_nat v1)
      by (apply Nat.mod_unique with (Z.to_nat v0); lia).
    reflexivity.
Qed.

Section FullDictionary.

Variable chars : list Z.
Hypothesis Hnd : NoDup chars.
Hypothesis Hfull : (4096 <= length chars)%nat.

Let c := buildMapping NewCodec chars.

Lemma full_digit_segment (v0 v1 : Z) :
  0 <= v0 < 64 -> 0 <= v1 < 64 ->
  snd (encodeSegment c (base64.encode v0, base64.encode v1)) = false /\
  length (segmentRunes c (base64.encode v0, base64.encode v1)) = 1%nat.
Proof.
  intros H0 H1. unfold encodeSegment, segmentRunes. cbn [fst snd].
  rewrite isValidBase64Pair_digits by assumption.
  destruct (full_dictionary_pair chars v0 v1 Hnd Hfull H0 H1) as [char Hc].
  fold c in Hc. rewrite Hc. auto.
Qed.

Lemma padding_segment (a : byte) :
  snd (encodeSegment c (a, base64.StdPadding)) = false /\
  length (segmentRunes c (a, base64.StdPadding)) = 2%nat.
Proof.
  unfold encodeSegment, segmentRunes. cbn [fst snd].
  rewrite isValidBase64Pair_padding. auto.
Qed.

(** The segments of a base64 text under a full dictionary: none is
    unmapped, and they are written as two runes for every three bytes of
    data, and three runes for a last group of one or two bytes. *)
Lemma full_dictionary_segments (data : list byte) :
  List.filter (fun seg => snd (encodeSegment c seg)) (segments (base64.EncodeToString data)) = [] /\
  length (flat_map (segmentRunes c) (segments (base64.EncodeToString data)))
  = (2 * (length data / 3) + if (length data mod 3 =? 0)%nat then 0 else 3)%nat.
Proof.
  induction data as [| a | a b | a b x rest [IH1 IH2]] using list_ind3.
  - split; reflexivity.
  - rewrite EncodeToString_1. cbv zeta. cbn [segments List.filter flat_map].
    set (val := byte_to_Z a * 65536).
    destruct (full_digit_segment ((val / 262144) mod 64) ((val / 4096) mod 64)
                ltac:(m64) ltac:(m64)) as [-> H1].
    destruct (padding_segment base64.StdPadding) as [-> H2].
    split; [reflexivity|]. rewrite !length_app, H1, H2. reflexivity.
  - rewrite EncodeToString_2. cbv zeta. cbn [segments List.filter flat_map].
    set (val := byte_to_Z a * 65536 + byte_to_Z b * 256).
    destruct (full_digit_segment ((val / 262144) mod 64) ((val / 4096) mod 64)
                ltac:(m64) ltac:(m64)) as [-> H1].
    destruct (padding_segment (base64.encode ((val / 64) mod 64))) as [-> H2].
    split; [reflexivity|]. rewrite !length_app, H1, H2. reflexivity.
  - rewrite EncodeToString_3. cbv zeta. cbn [app segments List.filter flat_map].
    set (val := byte_to_Z a * 65536 + byte_to_Z b * 256 + byte_to_Z x).
    destruct (full_digit_segment ((val / 262144) mod 64) ((val / 4096) mod 64)
                ltac:(m64) ltac:(m64)) as [-> H1].
    destruct (full_digit_segment ((val / 64) mod 64) (val mod 64)
                ltac:(m64) ltac:(m64)) as [-> H2].
    split; [exact IH1|]. rewrite !length_app, H1, H2, IH2. cbn [length].
    replace (S (S (S (length rest)))) with (length rest + 1 * 3)%nat by lia.
    rewrite Nat.div_add, Nat.Div0.mod_add by lia. lia.
Qed.

End FullDictionary.

(** X3: a full dictionary.  With 4096 qualifying characters or more, no
    pair of a base64 text is left unmapped (no warning is due), and the
    encoded text has two characters for every three bytes of data, plus
    three for a last group of one or two bytes: half the characters of the
    base64 text when the data length is a multiple of 3. *)
Theorem full_dictionary_halves (dict data : list byte) :
  (4096 <= length (extractChineseCharacters dict))%nat ->
  let c := buildMapping NewCodec (extractChineseCharacters dict) in
  snd (encodeDataCount c data true) = 0%nat /\
  length (runes (encodeData c data true))
  = (2 * (length data / 3) + if (length data mod 3 =? 0)%nat then 0 else 3)%nat /\
  ((length data mod 3 = 0)%nat ->
   (2 * length (runes (encodeData c data true)) = length (base64.EncodeToString data))%nat).
Proof.
  intros Hfull c.
  destruct (full_dictionary_segments _ (extract_NoDup dict) Hfull data) as [Hnone Hlen].
  fold c in Hnone, Hlen.
  destruct (encodeData_base64_runes c data (buildMapping_wf dict)) as [_ Hrunes].
  assert (Hcount : length (runes (encodeData c data true))
    = (2 * (length data / 3) + if (length data mod 3 =? 0)%nat then 0 else 3)%nat)
    by (rewrite Hrunes; exact Hlen).
  split; [|split].
  - unfold encodeDataCount. rewrite encodeLoop_spec. cbn [intermediate snd].
    rewrite padEven_base64, Hnone. reflexivity.
  - exact Hcount.
  - intros Hmod. rewrite Hcount, EncodeToString_length, Hmod. cbn [Nat.eqb].
    pose proof (Nat.div_mod_eq (length data) 3).
    replace (length data + 2)%nat with (2 + (length data / 3) * 3)%nat by lia.
    rewrite Nat.div_add by lia. cbn. lia.
Qed.

(** ** Texts that do not decode *)

Lemma base64Rune_false (r : Z) (b : byte) :
  base64Rune r = false -> r = byte_to_Z b ->
  IndexByte base64Charset b = -1 /\ base64.isNewline b = false /\ b <> base64.StdPadding.
Proof.
  intros Hr ->. unfold base64Rune in Hr.
  assert (Hnot : forall b', In b' (base64Charset ++ [base64.StdPadding; "010"%byte; "013"%byte]) ->
                            b' <> b).
  { intros b' Hin ->. apply not_true_iff_false in Hr. apply Hr.
    apply existsb_exists. exists b. split; [exact Hin | apply Z.eqb_refl]. }
  split; [|split].
  - destruct (Z.eq_dec (IndexByte base64Charset b) (-1)) as [E|E]; [exact E|].
    apply IndexByte_elem, list_elem_of_In in E. exfalso.
    apply (Hnot b); [apply in_or_app; now left | reflexivity].
  - unfold base64.isNewline. apply orb_false_iff.
    split; apply bool_decide_eq_false_2; intros ->;
      (eapply Hnot; [|reflexivity]); apply in_or_app; right; simpl; auto.
  - intros ->. eapply Hnot; [|reflexivity]. apply in_or_app; right; simpl; auto.
Qed.

(** The first byte of the encoding of a rune that the standard decoder
    does not know is a byte that it does not know. *)
Lemma EncodeRune_garbage (r : Z) :
  utf8.ValidRune r = true -> base64Rune r = false ->
  exists b rest, EncodeRune r = b :: rest /\
    IndexByte base64Charset b = -1 /\ base64.isNewline b = false /\ b <> base64.StdPadding.
Proof.
  intros Hv Hr. pose proof Hv as Hv'. apply ValidRune_spec in Hv'.
  destruct (Z_lt_le_dec r 0x80) as [Hlow|Hhigh].
  - rewrite EncodeRune_1 by lia. exists (byte_of_Z r), []. split; [reflexivity|].
    apply (base64Rune_false r); [exact Hr|]. rewrite byte_to_of_Z_small; lia.
  - pose proof (EncodeRune_high r Hv Hhigh) as Hall.
    pose proof (EncodeRune_length r) as Hlen.
    destruct (EncodeRune r) as [|b rest]; [simpl in Hlen; lia|].
    apply Forall_cons in Hall as [Hb _]. exists b, rest. split; [reflexivity|].
    split; [|split].
    + destruct (Z.eq_dec (IndexByte base64Charset b) (-1)) as [E|E]; [exact E|].
      apply IndexByte_ascii in E. lia.
    + unfold base64.isNewline. apply orb_false_iff.
      split; apply bool_decide_eq_false_2; intros ->; vm_compute in Hb; now apply Hb.
    + intros ->. vm_compute in Hb. now apply Hb.
Qed.

(** X4: a stray character makes decoding fail.  In base64 mode, a text
    with a rune that is no key of the reverse map and no character that the
    standard decoder reads or passes over (alphabet, padding, line feed,
    carriage return) is rejected, whatever surrounds the rune. *)
Theorem decode_rejects_stray_rune (c : Codec) (text : list byte) (r : Z) :
  r ∈ runes text -> runeToPair c !! r = None -> base64Rune r = false ->
  decodeData c text true = Err base64.CorruptInput.
Proof.
  intros Hin Hkey Hr. unfold decodeData. rewrite reconstruct_spec.
  assert (Hv : utf8.ValidRune r = true).
  { pose proof (runes_valid text) as Hall. rewrite Forall_forall in Hall. now apply Hall. }
  destruct (EncodeRune_garbage r Hv Hr) as (b & rest & Henc & Hidx & Hnl & Hpad).
  apply (DecodeString_garbage _ b); try assumption.
  apply list_elem_of_split in Hin as (l1 & l2 & ->).
  rewrite flat_map_app. cbn [flat_map]. unfold decodePiece at 2. rewrite Hkey, Henc.
  apply elem_of_app. right. apply elem_of_cons. now left.
Qed.

(** A space between two dictionary characters. *)
Lemma decode_rejects_stray_rune_witness :
  32 ∈ runes (EncodeRune 0x4E00 ++ bytes " " ++ EncodeRune 0x4E01) /\
  runeToPair sampleCodec !! 32 = None /\
  base64Rune 32 = false /\
  decodeData sampleCodec (EncodeRune 0x4E00 ++ bytes " " ++ EncodeRune 0x4E01) true
  = Err base64.CorruptInput.
Proof.
  assert (H1 : 32 ∈ runes (EncodeRune 0x4E00 ++ bytes " " ++ EncodeRune 0x4E01)).
  { apply list_elem_of_In. vm_compute. auto. }
  assert (H2 : runeToPair sampleCodec !! 32 = None) by (vm_compute; reflexivity).
  assert (H3 : base64Rune 32 = false) by reflexivity.
  split; [exact H1 | split; [exact H2 | split; [exact H3|]]].
  exact (decode_rejects_stray_rune sampleCodec _ 32 H1 H2 H3).
Defined.

(** ** Different data, different texts *)

(** X5: in base64 mode, with a codec built from a dictionary, different
    data never have the same encoded text. *)
Theorem encode_injective (dict d1 d2 : list byte) :
  d1 <> d2 ->
  encodeData (buildMapping NewCodec (extractChineseCharacters dict)) d1 true
  <> encodeData (buildMapping NewCodec (extractChineseCharacters dict)) d2 true.
Proof.
  intros Hne Heq. apply Hne.
  pose proof (roundtrip_base64 _ (buildMapping_wf dict) d1) as H1.
  pose proof (roundtrip_base64 _ (buildMapping_wf dict) d2) as H2.
  rewrite Heq, H2 in H1. now injection H1.
Qed.

Lemma encode_injective_witness :
  bytes "ab" <> bytes "ac" /\
  encodeData (buildMapping NewCodec (extractChineseCharacters (sampleDictionary 256)))
    (bytes "ab") true
  <> encodeData (buildMapping NewCodec (extractChineseCharacters (sampleDictionary 256)))
       (bytes "ac") true.
Proof.
  assert (H : bytes "ab" <> bytes "ac") by discriminate.
  split; [exact H|].
  exact (encode_injective (sampleDictionary 256) (bytes "ab") (bytes "ac") H).
Defined.

(** ** Dictionaries that give the same codec *)

Lemma encodeData_pairToRune (c c' : Codec) (data : list byte) (useBase64 : bool) :
  pairToRune c = pairToRune c' -> encodeData c data useBase64 = encodeData c' data useBase64.
Proof.
  intros H. rewrite !encodeData_spec. apply flat_map_ext. intros seg.
  unfold encodeSegment. now rewrite H.
Qed.

Lemma decodeData_runeToPair (c c' : Codec) (text : list byte) (useBase64 : bool) :
  runeToPair c = runeToPair c' -> decodeData c text useBase64 = decodeData c' text useBase64.
Proof.
  intros H. unfold decodeData. rewrite !reconstruct_spec.
  assert (Heq : flat_map (decodePiece c) (runes text) = flat_map (decodePiece c') (runes text)).
  { apply flat_map_ext. intros r. unfold decodePiece. now rewrite H. }
  now rewrite Heq.
Qed.

(** X6: growing a dictionary.  A text encoded with one dictionary decodes
    with every dictionary whose qualifying characters start with the (at
    most 4096) characters used by the first: characters appended to a
    dictionary do not invalidate what was encoded before. *)
Theorem decode_with_extended_dictionary (dict1 dict2 data : list byte) :
  take maxPairs (extractChineseCharacters dict1) `prefix_of` extractChineseCharacters dict2 ->
  decodeData (buildMapping NewCodec (extractChineseCharacters dict2))
    (encodeData (buildMapping NewCodec (extractChineseCharacters dict1)) data true) true
  = Ok data.
Proof.
  intros [more Hpre].
  set (c1 := buildMapping NewCodec (extractChineseCharacters dict1)).
  set (c2 := buildMapping NewCodec (extractChineseCharacters dict2)).
  set (c := mkCodec (pairToRune c1) (runeToPair c2)).
  destruct (buildMapping_entries _ (extract_NoDup dict1)) as (Hp1 & _). fold c1 in Hp1.
  destruct (buildMapping_entries _ (extract_NoDup dict2)) as (_ & Hr2 & _). fold c2 in Hr2.
  assert (Hwf : codec_wf c).
  { split; cbn [pairToRune runeToPair c].
    - intros p r Hpr. apply Hp1 in Hpr as (k & Hk & ->).
      apply Hr2. exists k. split; [|reflexivity].
      pose proof (lookup_lt_Some _ _ _ Hk) as Hlt. rewrite length_take in Hlt.
      apply lookup_take_Some. split; [|lia].
      rewrite Hpre. now apply lookup_app_l_Some.
    - apply (buildMapping_wf dict2). }
  rewrite (encodeData_pairToRune c1 c) by reflexivity.
  rewrite (decodeData_runeToPair c2 c) by reflexivity.
  apply (roundtrip_base64 c Hwf).
Qed.

Lemma decode_with_extended_dictionary_witness :
  take maxPairs (extractChineseCharacters (sampleDictionary 256))
    `prefix_of` extractChineseCharacters (sampleDictionary 300) /\
  decodeData (buildMapping NewCodec (extractChineseCharacters (sampleDictionary 300)))
    (encodeData (buildMapping NewCodec (extractChineseCharacters (sampleDictionary 256)))
       (bytes "hello") true) true
  = Ok (bytes "hello").
Proof.
  assert (H : take maxPairs (extractChineseCharacters (sampleDictionary 256))
                `prefix_of` extractChineseCharacters (sampleDictionary 300)).
  { rewrite !extract_sampleDictionary by lia.
    exists (drop 256 (sampleChars 300)). vm_compute. reflexivity. }
  split; [exact H|].
  exact (decode_with_extended_dictionary (sampleDictionary 256) (sampleDictionary 300)
           (bytes "hello") H).
Defined.

(** X7: only the distinct qualifying characters of a dictionary text
    matter.  The text that holds just these characters, each once and in
    the order of extraction, loads to the same result as the text
    itself. *)
Theorem dictionary_normal_form (dict : list byte) (c : Codec) :
  extractChineseCharacters (flat_map EncodeRune (extractChineseCharacters dict))
  = extractChineseCharacters dict /\
  LoadDictionary c (Some (flat_map EncodeRune (extractChineseCharacters dict)))
  = LoadDictionary c (Some dict).
Proof.
  assert (H : extractChineseCharacters (flat_map EncodeRune (extractChineseCharacters dict))
              = extractChineseCharacters dict).
  { apply extract_distinct; [apply extract_NoDup|].
    apply Forall_forall. intros r Hr. now apply extract_elem in Hr. }
  split; [exact H|]. unfold LoadDictionary. now rewrite H.
Qed.

(** X8: characters after the 4096th are ignored: [buildMapping] on a list
    of characters is [buildMapping] on its first 4096, whatever the codec
    held before. *)
Theorem buildMapping_first_4096 (c : Codec) (chars : list Z) :
  buildMapping c chars = buildMapping c (take 4096 chars) /\
  (forall more, (4096 <= length chars)%nat ->
                buildMapping c (chars ++ more) = buildMapping c chars).
Proof.
  assert (H : forall l, buildMapping c l = buildMapping c (take 4096 l)).
  { intros l. rewrite !buildMapping_assignFrom. unfold maxPairs.
    now rewrite take_take, Nat.min_id. }
  split; [apply H|].
  intros more Hlen. rewrite (H (chars ++ more)), (H chars).
  now rewrite take_app_le by lia.
Qed.

(** * The program on files *)

Lemma append_nonempty (a b : string) : b <> ""%string -> String.append a b <> ""%string.
Proof. intros Hb. destruct a; simpl; [exact Hb | discriminate]. Qed.

Lemma outputName_nonempty (o input suffix : string) :
  suffix <> ""%string -> cli.outputName o input suffix <> ""%string.
Proof.
  intros Hs. unfold cli.outputName. destruct (String.eqb o "") eqn:E.
  - now apply append_nonempty.
  - now apply String.eqb_neq.
Qed.

Lemma EncodedLen_length (data : list byte) :
  cli.EncodedLen (length data) = length (base64.EncodeToString data).
Proof. unfold cli.EncodedLen. rewrite EncodeToString_length. lia. Qed.

Lemma sample_length : length (extractChineseCharacters cli.sample) = 1352%nat.
Proof. vm_compute. reflexivity. Qed.
Section Files.

Context {FS : Type} `{cli.FileSystem FS}.

(** The functions of the program, run on a state. *)

Lemma LoadDictionary_run (c : Codec) (filename : string) (w : cli.world FS) :
  cli.LoadDictionary c filename w =
    match cli.ReadFile (cli.files w) filename with
    | None => (Err cli.FailedToReadDictionary, w)
    | Some content =>
      let chars := extractChineseCharacters content in
      if bool_decide (length chars < minDictChars)%nat then
        (Err (cli.InsufficientCharacters (length chars) minDictChars), w)
      else
        (Ok (buildMapping c chars),
         cli.mkWorld (cli.files w)
           (cli.output w ++ [cli.DictionaryLoaded (length chars);
                             cli.Coverage (size (pairToRune (buildMapping c chars))) maxPairs]))
    end.
Proof.
  unfold cli.LoadDictionary, cli.readFile, cli.printStats, cli.print, mbind, mret,
    cli.IO_bind, cli.IO_ret.
  destruct (cli.ReadFile (cli.files w) filename) as [content|]; [|reflexivity].
  cbv zeta. destruct (bool_decide _); [reflexivity|].
  cbn [cli.files cli.output]. now rewrite <- app_assoc.
Qed.

Lemma Encode_run (c : Codec) (inputPath outputPath : string) (useBase64 : bool)
    (w : cli.world FS) :
  cli.Encode c inputPath outputPath useBase64 w =
    match cli.ReadFile (cli.files w) inputPath with
    | None => (Err cli.FailedToReadInput, w)
    | Some data =>
      let '(encoded, unmapped) := encodeDataCount c data useBase64 in
      let warning := if (0 <? unmapped)%nat then [cli.Warning unmapped] else [] in
      match cli.WriteFile (cli.files w) outputPath encoded with
      | (fs', false) => (Err cli.FailedToWriteOutput, cli.mkWorld fs' (cli.output w ++ warning))
      | (fs', true) =>
        (Ok tt, cli.mkWorld fs'
                  (cli.output w ++ encodeReport unmapped (length data) (length encoded) useBase64))
      end
    end.
Proof.
  unfold cli.Encode, cli.encodeData, cli.readFile, cli.writeFile, cli.printEncodeStats,
    cli.print, encodeReport, mbind, mret, cli.IO_bind, cli.IO_ret.
  destruct (cli.ReadFile (cli.files w) inputPath) as [data|]; [|reflexivity].
  destruct (encodeDataCount c data useBase64) as [encoded unmapped].
  destruct w as [fs out]. cbn [cli.files cli.output].
  destruct (0 <? unmapped)%nat; cbn [cli.files cli.output];
    destruct (cli.WriteFile fs outputPath encoded) as [fs' [|]];
    cbn [cli.files cli.output]; rewrite ?app_nil_r; try reflexivity;
    destruct useBase64; cbn [cli.files cli.output app];
    rewrite <- ?app_assoc; reflexivity.
Qed.

Lemma Decode_run (c : Codec) (inputPath outputPath : string) (useBase64 : bool)
    (w : cli.world FS) :
  cli.Decode c inputPath outputPath useBase64 w =
    match cli.ReadFile (cli.files w) inputPath with
    | None => (Err cli.FailedToReadInput, w)
    | Some data =>
      match decodeData c data useBase64 with
      | Err e => (Err (cli.DecodeFailed e), w)
      | Ok decoded =>
        match cli.WriteFile (cli.files w) outputPath decoded with
        | (fs', false) => (Err cli.FailedToWriteOutput, cli.mkWorld fs' (cli.output w))
        | (fs', true) =>
          (Ok tt, cli.mkWorld fs' (cli.output w ++ [cli.DecodingComplete (length decoded)]))
        end
      end
    end.
Proof.
  unfold cli.Decode, cli.readFile, cli.writeFile, cli.print, mbind, mret,
    cli.IO_bind, cli.IO_ret.
  destruct (cli.ReadFile (cli.files w) inputPath) as [data|]; [|reflexivity].
  destruct (decodeData c data useBase64) as [decoded|e]; [|reflexivity].
  destruct (cli.WriteFile (cli.files w) outputPath decoded) as [fs' [|]]; reflexivity.
Qed.

Lemma main_run (f : cli.flags) (w : cli.world FS) :
  cli.main f w =
    if cli.genDict f then
      let '(r, w') := cli.generateSampleDictionary cli.defaultDictFile w in
      match r with
      | Err e => (1%nat, cli.mkWorld (cli.files w') (cli.output w' ++ [cli.ErrorLine e]))
      | Ok _ =>
        (0%nat, cli.mkWorld (cli.files w')
                  (cli.output w' ++ [cli.SampleGenerated cli.defaultDictFile]))
      end
    else
      let '(r, w') := cli.LoadDictionary NewCodec (cli.dictFile f) w in
      match r with
      | Err e => (1%nat, cli.mkWorld (cli.files w') (cli.output w' ++ [cli.ErrorLine e]))
      | Ok codec =>
        if negb (String.eqb (cli.encodeFile f) "") then
          let '(r, w'') :=
            cli.Encode codec (cli.encodeFile f)
              (cli.outputName (cli.outputFile f) (cli.encodeFile f) ".encoded")
              (cli.useBase64 f) w' in
          match r with
          | Err e =>
            (1%nat, cli.mkWorld (cli.files w'') (cli.output w'' ++ [cli.EncodingError e]))
          | Ok _ => (0%nat, w'')
          end
        else if negb (String.eqb (cli.decodeFile f) "") then
          let '(r, w'') :=
            cli.Decode codec (cli.decodeFile f)
              (cli.outputName (cli.outputFile f) (cli.decodeFile f) ".decoded")
              (cli.useBase64 f) w' in
          match r with
          | Err e =>
            (1%nat, cli.mkWorld (cli.files w'') (cli.output w'' ++ [cli.DecodingError e]))
          | Ok _ => (0%nat, w'')
          end
        else (0%nat, cli.mkWorld (cli.files w') (cli.output w' ++ [cli.Usage]))
      end.
Proof.
  unfold cli.main, cli.print, mbind, mret, cli.IO_bind, cli.IO_ret.
  destruct (cli.genDict f).
  - destruct (cli.generateSampleDictionary cli.defaultDictFile w) as [[u|e] w']; reflexivity.
  - destruct (cli.LoadDictionary NewCodec (cli.dictFile f) w) as [[codec|e] w']; [|reflexivity].
    destruct (negb (String.eqb (cli.encodeFile f) "")).
    + destruct (cli.Encode _ _ _ _ w') as [[u|e] w'']; reflexivity.
    + destruct (negb (String.eqb (cli.decodeFile f) "")); [|reflexivity].
      destruct (cli.Decode _ _ _ _ w') as [[u|e] w'']; reflexivity.
Qed.

End Files.

Section FileTheorems.

Context {FS : Type} `{cli.FileSystem FS}.

(** X9: encoding a file and decoding the result restores the file.  When
    [Encode] has succeeded in base64 mode, it has written a text [t] such
    that, in every state in which a file holds [t], [Decode] with the same
    codec on that file makes one write, of the bytes of the original
    input: it fails only when this write fails, never on reading or on
    decoding. *)
Theorem encode_then_decode_file
    (dict : list byte) (inp mid : string) (w : cli.world FS) :
  let c := buildMapping NewCodec (extractChineseCharacters dict) in
  fst (cli.Encode c inp mid true w) = Ok tt ->
  exists data t,
    cli.ReadFile (cli.files w) inp = Some data /\
    cli.WriteFile (cli.files w) mid t
      = (cli.files (snd (cli.Encode c inp mid true w)), true) /\
    forall (w1 : cli.world FS) (name out : string),
      cli.ReadFile (cli.files w1) name = Some t ->
      cli.Decode c name out true w1 =
        match cli.WriteFile (cli.files w1) out data with
        | (fs2, true) =>
          (Ok tt, cli.mkWorld fs2 (cli.output w1 ++ [cli.DecodingComplete (length data)]))
        | (fs2, false) =>
          (Err cli.FailedToWriteOutput, cli.mkWorld fs2 (cli.output w1))
        end.
Proof.
  intros c. rewrite Encode_run.
  destruct (cli.ReadFile (cli.files w) inp) as [data|] eqn:Hin; [|discriminate].
  pose proof (roundtrip_base64 c (buildMapping_wf dict) data) as Hrt.
  unfold encodeData in Hrt.
  destruct (encodeDataCount c data true) as [encoded unmapped]. cbn [fst] in Hrt.
  destruct (cli.WriteFile (cli.files w) mid encoded) as [fs1 [|]] eqn:Hw1; [|discriminate].
  intros _. cbn [snd cli.files]. exists data, encoded.
  split; [reflexivity | split; [exact Hw1|]].
  intros w1 name out Hread. rewrite Decode_run, Hread, Hrt.
  destruct (cli.WriteFile (cli.files w1) out data) as [fs2 [|]]; reflexivity.
Qed.

(** X10: what a successful [Encode] has done.  It has read the input and
    made one write, which succeeded, of the encoded text of the input to
    the output name: the files are as this write left them.  The lines
    printed are the warning, if pairs were left unmapped, and the sizes of
    the input read, of the base64 text that was paired (in base64 mode)
    and of the encoded text written. *)
Theorem encode_report
    (c : Codec) (inp out : string) (useBase64 : bool) (w : cli.world FS) :
  fst (cli.Encode c inp out useBase64 w) = Ok tt ->
  let w1 := snd (cli.Encode c inp out useBase64 w) in
  exists data,
    cli.ReadFile (cli.files w) inp = Some data /\
    cli.WriteFile (cli.files w) out (encodeData c data useBase64) = (cli.files w1, true) /\
    cli.output w1 =
      cli.output w
      ++ (if (0 <? snd (encodeDataCount c data useBase64))%nat
          then [cli.Warning (snd (encodeDataCount c data useBase64))] else [])
      ++ [cli.OriginalSize (length data)]
      ++ (if useBase64 then [cli.Base64Size (length (intermediate data true))] else [])
      ++ [cli.EncodedSize (length (encodeData c data useBase64)); cli.EncodingComplete].
Proof.
  rewrite Encode_run.
  destruct (cli.ReadFile (cli.files w) inp) as [data|] eqn:Hin; [|discriminate].
  destruct (encodeDataCount c data useBase64) as [encoded unmapped] eqn:Hc.
  destruct (cli.WriteFile (cli.files w) out encoded) as [fs1 [|]] eqn:Hw1; [|discriminate].
  intros _. cbn [snd cli.files cli.output]. exists data.
  unfold encodeData. rewrite Hc. cbn [fst snd].
  split; [reflexivity | split; [exact Hw1|]].
  unfold encodeReport. cbn [intermediate]. now rewrite EncodedLen_length.
Qed.

End FileTheorems.

Section FileFailures.

Context {FS : Type} `{cli.FileSystem FS}.

(** X11: a decoding that fails before it writes changes nothing.  When
    [Decode] fails for another reason than the writing of its output, the
    state is as before (no file written, no line printed), and the reason
    is an unreadable input or, in base64 mode only, a reconstructed text
    that the standard decoder rejects. *)
Theorem decode_failure_changes_nothing
    (c : Codec) (inp out : string) (useBase64 : bool) (w : cli.world FS)
    (e : cli.failure) :
  fst (cli.Decode c inp out useBase64 w) = Err e ->
  e <> cli.FailedToWriteOutput ->
  snd (cli.Decode c inp out useBase64 w) = w /\
  ((e = cli.FailedToReadInput /\ cli.ReadFile (cli.files w) inp = None) \/
   (e = cli.DecodeFailed base64.CorruptInput /\ useBase64 = true /\
    exists data, cli.ReadFile (cli.files w) inp = Some data /\
                 base64.DecodeString (reconstruct c data) = Err base64.CorruptInput)).
Proof.
  rewrite Decode_run.
  destruct (cli.ReadFile (cli.files w) inp) as [data|] eqn:Hin.
  - unfold decodeData. destruct useBase64.
    + destruct (base64.DecodeString (reconstruct c data)) as [decoded|[]] eqn:Hd.
      * destruct (cli.WriteFile (cli.files w) out decoded) as [fs' [|]];
          cbn [fst]; [discriminate|]. intros [= <-] Hne. contradiction.
      * cbn [fst snd]. intros [= <-] _. split; [reflexivity|]. right. eauto.
    + destruct (cli.WriteFile (cli.files w) out (reconstruct c data)) as [fs' [|]];
        cbn [fst]; [discriminate|]. intros [= <-] Hne. contradiction.
  - cbn [fst snd]. intros [= <-] _. auto.
Qed.

(** X12: nothing runs without a dictionary.  Unless [-gen-dict] is given,
    a dictionary file that cannot be read or holds fewer than 256 distinct
    qualifying characters ends the run with exit code 1 and one error
    line, before any flag of an action is looked at: no file changes and
    not even the usage is printed. *)
Theorem main_needs_dictionary (f : cli.flags) (w : cli.world FS) :
  cli.genDict f = false ->
  (forall content, cli.ReadFile (cli.files w) (cli.dictFile f) = Some content ->
                   (length (extractChineseCharacters content) < 256)%nat) ->
  fst (cli.main f w) = 1%nat /\
  cli.files (snd (cli.main f w)) = cli.files w /\
  exists e, cli.output (snd (cli.main f w)) = cli.output w ++ [cli.ErrorLine e] /\
            (e = cli.FailedToReadDictionary \/
             exists found, e = cli.InsufficientCharacters found 256).
Proof.
  intros Hgen Hdict. rewrite main_run, Hgen, LoadDictionary_run.
  destruct (cli.ReadFile (cli.files w) (cli.dictFile f)) as [content|].
  - cbv zeta. specialize (Hdict content eq_refl).
    rewrite bool_decide_eq_true_2 by exact Hdict.
    split; [reflexivity | split; [reflexivity|]]. eexists. split; [reflexivity|].
    right. eauto.
  - split; [reflexivity | split; [reflexivity|]]. eexists. split; [reflexivity|].
    now left.
Qed.

End FileFailures.

Section MainTheorems.

Context {FS : Type} `{cli.FileSystem FS}.

(** X13: the command line restores a file.  A run with [-e] that exits
    with 0 (base64 mode; a [-d] given besides is ignored) has read a
    dictionary text and the input, and has written a text [t] to the output
    name (given, or the input name with [.encoded]).  In every state in
    which a dictionary file holds the same dictionary text and a file
    holds [t], a run with [-d] on that file makes one write, of the bytes
    of the original input, to its output name (given, or the name with
    [.decoded]): it exits with 0 when the write succeeds and with 1, after
    the error line of the failed write, when it does not. *)
Theorem main_encode_then_decode
    (dictName inp o1 other : string) (w0 : cli.world FS) :
  let fe := cli.mkFlags inp other dictName o1 true false in
  inp <> ""%string ->
  fst (cli.main fe w0) = 0%nat ->
  exists dict data t,
    cli.ReadFile (cli.files w0) dictName = Some dict /\
    cli.ReadFile (cli.files w0) inp = Some data /\
    cli.WriteFile (cli.files w0) (cli.outputName o1 inp ".encoded") t
      = (cli.files (snd (cli.main fe w0)), true) /\
    forall (w1 : cli.world FS) (dictName' name o2 : string),
      name <> ""%string ->
      cli.ReadFile (cli.files w1) dictName' = Some dict ->
      cli.ReadFile (cli.files w1) name = Some t ->
      let r := cli.main (cli.mkFlags "" name dictName' o2 true false) w1 in
      let '(fs2, written) :=
        cli.WriteFile (cli.files w1) (cli.outputName o2 name ".decoded") data in
      cli.files (snd r) = fs2 /\
      fst r = (if written then 0 else 1)%nat /\
      exists lines,
        cli.output (snd r) =
          cli.output w1 ++ lines ++
          [if written then cli.DecodingComplete (length data)
           else cli.DecodingError cli.FailedToWriteOutput].
Proof.
  intros fe Hinp.
  rewrite (main_run fe). cbn [cli.genDict cli.dictFile cli.encodeFile cli.outputFile
                               cli.useBase64 fe].
  rewrite LoadDictionary_run.
  destruct (cli.ReadFile (cli.files w0) dictName) as [content|] eqn:Hdict; [|discriminate].
  cbv zeta. destruct (bool_decide _) eqn:Hsize; [discriminate|].
  set (c := buildMapping NewCodec (extractChineseCharacters content)).
  rewrite (proj2 (String.eqb_neq inp "") Hinp). cbn [negb].
  rewrite Encode_run. cbn [cli.files cli.output].
  destruct (cli.ReadFile (cli.files w0) inp) as [data|] eqn:Hin; [|discriminate].
  pose proof (roundtrip_base64 c (buildMapping_wf content) data) as Hrt.
  unfold encodeData in Hrt.
  destruct (encodeDataCount c data true) as [encoded unmapped]. cbn [fst] in Hrt.
  destruct (cli.WriteFile (cli.files w0) (cli.outputName o1 inp ".encoded") encoded)
    as [fs1 [|]] eqn:Hw1; [|discriminate].
  intros _. cbn [snd cli.files]. exists content, data, encoded.
  split; [reflexivity | split; [reflexivity | split; [exact Hw1|]]].
  intros w1 dictName' name o2 Hname Hdict' Hread.
  rewrite main_run. cbn [cli.genDict cli.dictFile cli.encodeFile cli.decodeFile
                          cli.outputFile cli.useBase64].
  rewrite LoadDictionary_run, Hdict'. cbv zeta. rewrite Hsize. fold c.
  change (String.eqb "" "") with true. cbn [negb].
  rewrite (proj2 (String.eqb_neq name "") Hname). cbn [negb].
  rewrite Decode_run. cbn [cli.files cli.output]. rewrite Hread, Hrt.
  destruct (cli.WriteFile (cli.files w1) (cli.outputName o2 name ".decoded") data)
    as [fs2 [|]]; cbn [fst snd cli.files cli.output].
  - split; [reflexivity | split; [reflexivity|]]. eexists.
    rewrite <- app_assoc. reflexivity.
  - split; [reflexivity | split; [reflexivity|]]. eexists.
    rewrite <- app_assoc. reflexivity.
Qed.

(** X14: [-gen-dict] and the dictionary it writes.  With [-gen-dict] the
    other flags are ignored: the run is one write of the sample text to
    [dictionary.md], with exit code 0 and one line when the write succeeds,
    and exit code 1 and the error line when it fails.  The sample text is a
    dictionary that loads: from every file that holds it [LoadDictionary]
    builds a mapping of 1352 of the 4096 pairs, above the threshold of 256
    characters, and prints these numbers. *)
Theorem gen_dict_then_load (f : cli.flags) (w0 : cli.world FS) :
  cli.genDict f = true ->
  (let '(fs1, written) := cli.WriteFile (cli.files w0) cli.defaultDictFile cli.sample in
   cli.main f w0 =
     if written
     then (0%nat, cli.mkWorld fs1 (cli.output w0 ++ [cli.SampleGenerated cli.defaultDictFile]))
     else (1%nat, cli.mkWorld fs1 (cli.output w0 ++ [cli.ErrorLine cli.WriteFileFailed]))) /\
  (forall (w : cli.world FS) (name : string),
     cli.ReadFile (cli.files w) name = Some cli.sample ->
     exists c,
       cli.LoadDictionary NewCodec name w =
         (Ok c, cli.mkWorld (cli.files w)
                  (cli.output w ++ [cli.DictionaryLoaded 1352; cli.Coverage 1352 4096])) /\
       size (pairToRune c) = 1352%nat).
Proof.
  intros Hgen. split.
  - rewrite main_run, Hgen.
    unfold cli.generateSampleDictionary, cli.writeFile, mbind, mret, cli.IO_bind, cli.IO_ret.
    destruct (cli.WriteFile (cli.files w0) cli.defaultDictFile cli.sample) as [fs1 [|]];
      reflexivity.
  - intros w name Hread. rewrite LoadDictionary_run, Hread. cbv zeta.
    destruct (buildMapping_entries _ (extract_NoDup cli.sample)) as (_ & _ & Hsize & _).
    rewrite Hsize, sample_length. unfold minDictChars.
    rewrite bool_decide_eq_false_2 by lia.
    eexists. split; [reflexivity|]. rewrite Hsize, sample_length. reflexivity.
Qed.

End MainTheorems.

(** * Instances of the further properties *)

Lemma full_dictionary_halves_witness :
  (4096 <= length (extractChineseCharacters (sampleDictionary 4096)))%nat /\
  snd (encodeDataCount
         (buildMapping NewCodec (extractChineseCharacters (sampleDictionary 4096)))
         (bytes "hello!") true) = 0%nat /\
  length (runes (encodeData
                   (buildMapping NewCodec (extractChineseCharacters (sampleDictionary 4096)))
                   (bytes "hello!") true))
  = (2 * (length (bytes "hello!") / 3)
     + if (length (bytes "hello!") mod 3 =? 0)%nat then 0 else 3)%nat /\
  ((length (bytes "hello!") mod 3 = 0)%nat ->
   (2 * length (runes (encodeData
                         (buildMapping NewCodec
                            (extractChineseCharacters (sampleDictionary 4096)))
                         (bytes "hello!") true))
    = length (base64.EncodeToString (bytes "hello!")))%nat).
Proof.
  assert (H : (4096 <= length (extractChineseCharacters (sampleDictionary 4096)))%nat).
  { rewrite (proj1 sampleDictionary_4096). apply Nat.le_refl. }
  split; [exact H|].
  exact (full_dictionary_halves (sampleDictionary 4096) (bytes "hello!") H).
Defined.

Lemma encode_then_decode_file_witness :
  fst (cli.Encode (buildMapping NewCodec (extractChineseCharacters (sampleDictionary 256)))
         "in.txt" "mid" true sampleWorld) = Ok tt /\
  exists data t,
    cli.ReadFile (cli.files sampleWorld) "in.txt" = Some data /\
    cli.WriteFile (cli.files sampleWorld) "mid" t
      = (cli.files
           (snd (cli.Encode
                   (buildMapping NewCodec (extractChineseCharacters (sampleDictionary 256)))
                   "in.txt" "mid" true sampleWorld)), true) /\
    forall (w1 : cli.world cli.memfs) (name out : string),
      cli.ReadFile (cli.files w1) name = Some t ->
      cli.Decode (buildMapping NewCodec (extractChineseCharacters (sampleDictionary 256)))
        name out true w1 =
        match cli.WriteFile (cli.files w1) out data with
        | (fs2, true) =>
          (Ok tt, cli.mkWorld fs2 (cli.output w1 ++ [cli.DecodingComplete (length data)]))
        | (fs2, false) =>
          (Err cli.FailedToWriteOutput, cli.mkWorld fs2 (cli.output w1))
        end.
Proof.
  assert (H : fst (cli.Encode
                     (buildMapping NewCodec (extractChineseCharacters (sampleDictionary 256)))
                     "in.txt" "mid" true sampleWorld) = Ok tt)
    by (vm_compute; reflexivity).
  split; [exact H|].
  exact (encode_then_decode_file (sampleDictionary 256) "in.txt" "mid" sampleWorld H).
Defined.

(** In the state for examples, the file written by [Encode] is read back
    by [Decode], which writes the bytes of the input. *)
Example encode_then_decode_sample :
  cli.ReadFile
    (cli.files
       (snd (cli.Decode sampleCodec "mid" "out" true
               (snd (cli.Encode sampleCodec "in.txt" "mid" true sampleWorld)))))
    "out"
  = Some (bytes "hello").
Proof. vm_compute. reflexivity. Qed.

Lemma encode_report_witness :
  fst (cli.Encode sampleCodec "in.txt" "out" true sampleWorld) = Ok tt /\
  exists data,
    cli.ReadFile (cli.files sampleWorld) "in.txt" = Some data /\
    cli.WriteFile (cli.files sampleWorld) "out" (encodeData sampleCodec data true)
      = (cli.files (snd (cli.Encode sampleCodec "in.txt" "out" true sampleWorld)), true) /\
    cli.output (snd (cli.Encode sampleCodec "in.txt" "out" true sampleWorld)) =
      cli.output sampleWorld
      ++ (if (0 <? snd (encodeDataCount sampleCodec data true))%nat
          then [cli.Warning (snd (encodeDataCount sampleCodec data true))] else [])
      ++ [cli.OriginalSize (length data)]
      ++ [cli.Base64Size (length (intermediate data true))]
      ++ [cli.EncodedSize (length (encodeData sampleCodec data true)); cli.EncodingComplete].
Proof.
  assert (H : fst (cli.Encode sampleCodec "in.txt" "out" true sampleWorld) = Ok tt)
    by (vm_compute; reflexivity).
  split; [exact H|].
  exact (encode_report sampleCodec "in.txt" "out" true sampleWorld H).
Defined.

Lemma decode_failure_changes_nothing_witness :
  fst (cli.Decode sampleCodec "bad.txt" "out" true sampleWorld)
    = Err (cli.DecodeFailed base64.CorruptInput) /\
  cli.DecodeFailed base64.CorruptInput <> cli.FailedToWriteOutput /\
  snd (cli.Decode sampleCodec "bad.txt" "out" true sampleWorld) = sampleWorld /\
  ((cli.DecodeFailed base64.CorruptInput = cli.FailedToReadInput /\
    cli.ReadFile (cli.files sampleWorld) "bad.txt" = None) \/
   (cli.DecodeFailed base64.CorruptInput = cli.DecodeFailed base64.CorruptInput /\
    true = true /\
    exists data, cli.ReadFile (cli.files sampleWorld) "bad.txt" = Some data /\
                 base64.DecodeString (reconstruct sampleCodec data)
                 = Err base64.CorruptInput)).
Proof.
  assert (H1 : fst (cli.Decode sampleCodec "bad.txt" "out" true sampleWorld)
               = Err (cli.DecodeFailed base64.CorruptInput))
    by (vm_compute; reflexivity).
  assert (H2 : cli.DecodeFailed base64.CorruptInput <> cli.FailedToWriteOutput)
    by discriminate.
  split; [exact H1 | split; [exact H2|]].
  exact (decode_failure_changes_nothing sampleCodec "bad.txt" "out" true sampleWorld _ H1 H2).
Defined.

Lemma main_needs_dictionary_witness :
  cli.genDict (cli.mkFlags "in.txt" "" "missing.md" "" true false) = false /\
  (forall content,
     cli.ReadFile (cli.files sampleWorld)
       (cli.dictFile (cli.mkFlags "in.txt" "" "missing.md" "" true false)) = Some content ->
     (length (extractChineseCharacters content) < 256)%nat) /\
  fst (cli.main (cli.mkFlags "in.txt" "" "missing.md" "" true false) sampleWorld) = 1%nat /\
  cli.files (snd (cli.main (cli.mkFlags "in.txt" "" "missing.md" "" true false) sampleWorld))
  = cli.files sampleWorld /\
  exists e,
    cli.output (snd (cli.main (cli.mkFlags "in.txt" "" "missing.md" "" true false) sampleWorld))
    = cli.output sampleWorld ++ [cli.ErrorLine e] /\
    (e = cli.FailedToReadDictionary \/
     exists found, e = cli.InsufficientCharacters found 256).
Proof.
  assert (H2 : forall content,
     cli.ReadFile (cli.files sampleWorld)
       (cli.dictFile (cli.mkFlags "in.txt" "" "missing.md" "" true false)) = Some content ->
     (length (extractChineseCharacters content) < 256)%nat)
    by (intros content Hc; vm_compute in Hc; discriminate Hc).
  split; [reflexivity | split; [exact H2|]].
  exact (main_needs_dictionary (cli.mkFlags "in.txt" "" "missing.md" "" true false)
           sampleWorld eq_refl H2).
Defined.

Lemma main_encode_then_decode_witness :
  "in.txt"%string <> ""%string /\
  fst (cli.main (cli.mkFlags "in.txt" "ignored" "dict.md" "" true false) sampleWorld) = 0%nat /\
  exists dict data t,
    cli.ReadFile (cli.files sampleWorld) "dict.md" = Some dict /\
    cli.ReadFile (cli.files sampleWorld) "in.txt" = Some data /\
    cli.WriteFile (cli.files sampleWorld) (cli.outputName "" "in.txt" ".encoded") t
      = (cli.files
           (snd (cli.main (cli.mkFlags "in.txt" "ignored" "dict.md" "" true false)
                   sampleWorld)), true) /\
    forall (w1 : cli.world cli.memfs) (dictName' name o2 : string),
      name <> ""%string ->
      cli.ReadFile (cli.files w1) dictName' = Some dict ->
      cli.ReadFile (cli.files w1) name = Some t ->
      let r := cli.main (cli.mkFlags "" name dictName' o2 true false) w1 in
      let '(fs2, written) :=
        cli.WriteFile (cli.files w1) (cli.outputName o2 name ".decoded") data in
      cli.files (snd r) = fs2 /\
      fst r = (if written then 0 else 1)%nat /\
      exists lines,
        cli.output (snd r) =
          cli.output w1 ++ lines ++
          [if written then cli.DecodingComplete (length data)
           else cli.DecodingError cli.FailedToWriteOutput].
Proof.
  assert (H1 : "in.txt"%string <> ""%string) by discriminate.
  assert (H2 : fst (cli.main (cli.mkFlags "in.txt" "ignored" "dict.md" "" true false)
                      sampleWorld) = 0%nat) by (vm_compute; reflexivity).
  split; [exact H1 | split; [exact H2|]].
  exact (main_encode_then_decode "dict.md" "in.txt" "" "ignored" sampleWorld H1 H2).
Defined.

(** In the state for examples, two runs of the program, the first with
    [-e] and the second with [-d] on the file the first has written,
    leave the bytes of the input in the file with both suffixes. *)
Example main_encode_then_decode_sample :
  cli.ReadFile
    (cli.files
       (snd (cli.main (cli.mkFlags "" "in.txt.encoded" "dict.md" "" true false)
               (snd (cli.main (cli.mkFlags "in.txt" "" "dict.md" "" true false)
                       sampleWorld)))))
    "in.txt.encoded.decoded"
  = Some (bytes "hello").
Proof. vm_compute. reflexivity. Qed.

Lemma gen_dict_then_load_witness :
  cli.genDict (cli.mkFlags "in.txt" "" "dict.md" "" true true) = true /\
  (let '(fs1, written) :=
     cli.WriteFile (cli.files sampleWorld) cli.defaultDictFile cli.sample in
   cli.main (cli.mkFlags "in.txt" "" "dict.md" "" true true) sampleWorld =
     if written
     then (0%nat, cli.mkWorld fs1
                    (cli.output sampleWorld ++ [cli.SampleGenerated cli.defaultDictFile]))
     else (1%nat, cli.mkWorld fs1
                    (cli.output sampleWorld ++ [cli.ErrorLine cli.WriteFileFailed]))) /\
  (forall (w : cli.world cli.memfs) (name : string),
     cli.ReadFile (cli.files w) name = Some cli.sample ->
     exists c,
       cli.LoadDictionary NewCodec name w =
         (Ok c, cli.mkWorld (cli.files w)
                  (cli.output w ++ [cli.DictionaryLoaded 1352; cli.Coverage 1352 4096])) /\
       size (pairToRune c) = 1352%nat).
Proof.
  split; [reflexivity|].
  exact (gen_dict_then_load (cli.mkFlags "in.txt" "" "dict.md" "" true true) sampleWorld
           eq_refl).
Defined.
